(** * wg-tracker: a shallow embedding of the persistent task pipeline

    This development models [src/state/current.rs] (the engine [State], the
    [Task] variants and [State::iterate]), the driver loop of
    [src/tracker.rs], the entry point [src/main.rs], the snapshot format of
    [State::save] / [VersionedState::from_path], and the text helpers of
    [src/util.rs] that the tasks use.

    Remote collaborators (the GitHub GraphQL calls and the bug tracker) are
    modelled as an oracle record [Remote]: every call is logged in the
    world, and its answer is whatever the oracle returns, so theorems hold
    for every behaviour of the remote side. *)

From Stdlib Require Import Sorted.
From stdpp Require Import base gmap sets list strings pretty.
From Stdlib Require Import ZArith Ascii.

Infix "+:+" := String.append (at level 60, right associativity).

(** ** Errors and results (the [failure] crate) *)

(** [failure::Error]: the displayed message and, for an error built with
    [.context(..)], the displayed cause. *)
Record Error := mkError { err_msg : string; err_cause : option string }.

Definition format_err (msg : string) : Error := mkError msg None.
Definition with_context (msg : string) (e : Error) : Error :=
  mkError msg (Some (err_msg e)).

Inductive result (A : Type) : Type :=
| Ok (a : A)
| Err (e : Error).
Arguments Ok {A} a.
Arguments Err {A} e.

Definition is_err {A} (r : result A) : bool :=
  match r with Ok _ => false | Err _ => true end.

(** ** Data returned by the remote side ([src/query]) *)

Record IssueLabel := mkIssueLabel { label_name : string; label_color : string }.

Record UpdatedIssue := mkUpdatedIssue {
  id : string;
  issue_number : Z;
  issue_title : string;
  issue_labels : list IssueLabel;
  updated_at : string;
}.

Record IssueComment := mkIssueComment {
  comment_url : string;
  created_at : string;
  body_text : string;
}.

Record KnownLabel := mkKnownLabel { known_id : string; known_name : string }.

(** ** Configuration ([src/config.rs], [src/repo_config.rs]); the field
    [bugzilla_key] is the one read by [FileBugForDecisionsIssueTask::run]
    ([struct Config] of [config.rs] does not declare it). *)

Record Config := mkConfig {
  github_key : string;
  bugzilla_key : string;
  wg_repo_owner : string;
  wg_repo_name : string;
  decisions_repo_owner : string;
  decisions_repo_name : string;
  state_directory : string;
  start_date : string;
}.

Definition wg_repo_url (c : Config) : string :=
  "https://github.com/" +:+ wg_repo_owner c +:+ "/" +:+ wg_repo_name c.

Definition decisions_repo_url (c : Config) : string :=
  "https://github.com/" +:+ decisions_repo_owner c +:+ "/" +:+ decisions_repo_name c.

Record RepoConfigLabels := mkRepoConfigLabels {
  color : option string;
  prefixes : option (list string);
}.

Record RepoConfig := mkRepoConfig {
  labels : option RepoConfigLabels;
  components : option (gmap string string);
}.

(** ** Tasks

    The Rust code stores tasks as [Box<dyn Task>] tagged by [typetag]; the
    set of implementations is closed, so it is a sum type here with one
    constructor per struct implementing [Task], fields in declaration
    order. *)

Inductive Task : Type :=
| QueryWGIssuesTask (since : string)
| QueryDecisionsIssuesTask (since : string)
| QueryWGIssueCommentsTask (number : Z) (issue_title : string)
    (issue_labels : list IssueLabel) (since : string)
| ProcessWGCommentTask (issue_number : Z) (issue_title : string)
    (issue_labels : list IssueLabel) (url : string) (body_text : string)
| QueryDecisionsKnownLabelsTask
| EnsureLabelTask (name : string) (color : string)
| QueryDecisionsRepoID
| FileIssueTask (issue_number : Z) (issue_title : string)
    (issue_labels : list string) (comment_url : string) (resolutions : list string)
| RemoveDecisionsIssueBugLabelTask (issue_id : string)
| CloseIssueTask (issue_id : string)
| FileBugForDecisionsIssueTask (product : string) (component : string)
    (issue_number : Z) (issue_id : string)
| FileBugForDecisionsIssueWithDetailsTask (product : string) (component : string)
    (summary : string) (description : string) (urls : list string)
    (issue_number : Z) (issue_id : string)
| AddIssueCommentTask (issue_id : string) (body : string).

(** ** Engine state *)

Record State := mkState {
  tasks : list Task;                          (* VecDeque<Box<dyn Task>> *)
  posted_tasks : list Task;                   (* Vec<Box<dyn Task>> *)
  handled_wg_comments : gset string;
  handled_decisions_issues : gset Z;
  known_labels : option (gmap string string); (* #[serde(skip)] *)
  decisions_repo_id : option string;          (* #[serde(skip)] *)
  last_time_wg : string;
  last_time_decisions : string;
}.

Definition set_tasks (l : list Task) (s : State) : State :=
  mkState l (posted_tasks s) (handled_wg_comments s) (handled_decisions_issues s)
    (known_labels s) (decisions_repo_id s) (last_time_wg s) (last_time_decisions s).
Definition set_posted_tasks (l : list Task) (s : State) : State :=
  mkState (tasks s) l (handled_wg_comments s) (handled_decisions_issues s)
    (known_labels s) (decisions_repo_id s) (last_time_wg s) (last_time_decisions s).
Definition set_handled_wg_comments (h : gset string) (s : State) : State :=
  mkState (tasks s) (posted_tasks s) h (handled_decisions_issues s)
    (known_labels s) (decisions_repo_id s) (last_time_wg s) (last_time_decisions s).
Definition set_handled_decisions_issues (h : gset Z) (s : State) : State :=
  mkState (tasks s) (posted_tasks s) (handled_wg_comments s) h
    (known_labels s) (decisions_repo_id s) (last_time_wg s) (last_time_decisions s).
Definition set_known_labels (k : option (gmap string string)) (s : State) : State :=
  mkState (tasks s) (posted_tasks s) (handled_wg_comments s) (handled_decisions_issues s)
    k (decisions_repo_id s) (last_time_wg s) (last_time_decisions s).
Definition set_decisions_repo_id (r : option string) (s : State) : State :=
  mkState (tasks s) (posted_tasks s) (handled_wg_comments s) (handled_decisions_issues s)
    (known_labels s) r (last_time_wg s) (last_time_decisions s).
Definition set_last_time_wg (t : string) (s : State) : State :=
  mkState (tasks s) (posted_tasks s) (handled_wg_comments s) (handled_decisions_issues s)
    (known_labels s) (decisions_repo_id s) t (last_time_decisions s).
Definition set_last_time_decisions (t : string) (s : State) : State :=
  mkState (tasks s) (posted_tasks s) (handled_wg_comments s) (handled_decisions_issues s)
    (known_labels s) (decisions_repo_id s) (last_time_wg s) t.

(** [State::new] *)
Definition State_new (date : string) : State :=
  mkState [] [] ∅ ∅ None None (date +:+ "T00:00:00Z") "2019-01-01T00:00:00Z".

(** [State::is_finished] *)
Definition is_finished (s : State) : bool :=
  match tasks s, posted_tasks s with [], [] => true | _, _ => false end.

(** [State::check_for_updates] *)
Definition check_for_updates (s : State) : State :=
  set_tasks (tasks s ++ [QueryWGIssuesTask (last_time_wg s);
                         QueryDecisionsIssuesTask (last_time_decisions s)]) s.

(** ** Remote side: calls and their answers *)

(** One constructor per function of [src/query] that the tasks call (the
    API keys are left out of the log). *)
Inductive Call : Type :=
| CUpdatedIssues (owner name since : string)
| CIssueComments (owner name : string) (number : Z)
| CKnownLabels (owner name : string)
| CRepoId (owner name : string)
| CCreateLabel (repo_id name color : string)
| CCreateIssue (repo_id title body : string) (label_ids : list string)
| CRemoveLabels (issue_id : string) (label_ids : list string)
| CCloseIssue (issue_id : string)
| CAddIssueComment (issue_id body : string)
| CIssueTitleAndBody (owner name : string) (number : Z)
| CFileBug (product component summary description : string) (urls : list string).

Definition is_mutation (c : Call) : bool :=
  match c with
  | CCreateLabel _ _ _ | CCreateIssue _ _ _ _ | CRemoveLabels _ _
  | CCloseIssue _ | CAddIssueComment _ _ | CFileBug _ _ _ _ _ => true
  | _ => false
  end.

(** The answers of the remote side, as an oracle. *)
Record Remote := mkRemote {
  r_updated_issues : string -> string -> string -> result (list UpdatedIssue);
  r_issue_comments : string -> string -> Z -> result (list IssueComment);
  r_known_labels : string -> string -> result (list KnownLabel);
  r_repo_id : string -> string -> result (option string);
  r_create_label : string -> string -> string -> result string;
  r_create_issue : string -> string -> string -> list string -> result string;
  r_remove_labels : string -> list string -> result unit;
  r_close_issue : string -> result unit;
  r_add_issue_comment : string -> string -> result unit;
  r_issue_title_and_body : string -> string -> Z -> result (string * string);
  r_file_bug : string -> string -> string -> string -> list string -> result string;
}.

(** ** The task monad: state passing over [&mut State], the log of remote
    calls, and [Result<_, failure::Error>] with [?] short-circuiting. *)

Record World := mkWorld { w_state : State; w_calls : list Call }.

Definition M (A : Type) : Type := World -> World * result A.

Global Instance M_ret : MRet M := fun A a w => (w, Ok a).
Global Instance M_bind : MBind M := fun A B k m w =>
  match m w with
  | (w', Ok a) => k a w'
  | (w', Err e) => (w', Err e)
  end.

Definition get_state : M State := fun w => (w, Ok (w_state w)).
Definition modify_state (f : State -> State) : M unit :=
  fun w => (mkWorld (f (w_state w)) (w_calls w), Ok tt).
Definition fail {A} (e : Error) : M A := fun w => (w, Err e).
(** A remote call: logged, then answered by the oracle. *)
Definition call {A} (c : Call) (r : result A) : M A :=
  fun w => (mkWorld (w_state w) (w_calls w ++ [c]), r).

(** [State::post_task] *)
Definition post_task (t : Task) : M unit :=
  modify_state (fun s => set_posted_tasks (posted_tasks s ++ [t]) s).

(** [for x in xs { body? }] *)
Fixpoint for_each {A} (f : A -> M unit) (xs : list A) : M unit :=
  match xs with
  | [] => mret tt
  | x :: xs' => f x ;; for_each f xs'
  end.

(** ** Text helpers *)

Definition nl : string := String "010"%char EmptyString.

Fixpoint str_drop (n : nat) (s : string) : string :=
  match n, s with
  | O, _ => s
  | S n', String _ s' => str_drop n' s'
  | S _, EmptyString => EmptyString
  end.

(** [str::split] on one character. *)
Fixpoint split_char (c : ascii) (s : string) : list string :=
  match s with
  | EmptyString => [EmptyString]
  | String a s' =>
      if Ascii.eqb a c then EmptyString :: split_char c s'
      else match split_char c s' with
           | h :: t => String a h :: t
           | [] => [String a EmptyString]
           end
  end.

(** Drop one trailing carriage return. *)
Fixpoint strip_cr (s : string) : string :=
  match s with
  | EmptyString => EmptyString
  | String a EmptyString => if Ascii.eqb a "013"%char then EmptyString else s
  | String a s' => String a (strip_cr s')
  end.

(** [str::lines] as in the Rust of this code's era:
    [split_terminator('\n')] (no trailing empty piece), each piece with a
    trailing ['\r'] removed. *)
Definition lines (s : string) : list string :=
  let parts := split_char "010"%char s in
  let parts := match last parts with
               | Some EmptyString => removelast parts
               | _ => parts
               end in
  map strip_cr parts.

(** [str::split] on a non-empty string pattern, left to right, without
    overlaps; the fuel is the length of the input plus one. *)
Fixpoint split_str_go (fuel : nat) (sep s : string) : list string :=
  match fuel with
  | O => [s]
  | S f =>
      match s with
      | EmptyString => [EmptyString]
      | String a s' =>
          if String.prefix sep s then
            EmptyString :: split_str_go f sep (str_drop (String.length sep) s)
          else match split_str_go f sep s' with
               | h :: t => String a h :: t
               | [] => [s]
               end
      end
  end.

Definition split_str (sep s : string) : list string :=
  split_str_go (S (String.length s)) sep s.

(** [util::escape_markdown]: every character of the class
    [[#&()*+<>\[\]\\_`|-]] is replaced. *)
Definition escape_char (c : ascii) : string :=
  if Ascii.eqb c "\"%char then "\\"
  else if Ascii.eqb c "&"%char then "&amp;"
  else if Ascii.eqb c "<"%char then "&lt;"
  else if Ascii.eqb c ">"%char then "&gt;"
  else if Ascii.eqb c "|"%char then "&124;"
  else if existsb (Ascii.eqb c) (String.list_ascii_of_string "#()*+[]_`-")
  then String "\"%char (String c EmptyString)
  else String c EmptyString.

Fixpoint escape_markdown (s : string) : string :=
  match s with
  | EmptyString => EmptyString
  | String c s' => escape_char c +:+ escape_markdown s'
  end.

(** The characters up to (not including) the first [')']. *)
Fixpoint take_until_paren (s : string) : string :=
  match s with
  | EmptyString => EmptyString
  | String c s' =>
      if Ascii.eqb c ")"%char then EmptyString else String c (take_until_paren s')
  end.

(** [util::extract_urls]: the first group of every match of the regex
    MARKDOWN_URLS_RE (an opening parenthesis, then a group of "https:" and
    the longest run of characters other than a closing parenthesis),
    leftmost first, without overlaps. *)
Fixpoint extract_urls_go (fuel : nat) (s : string) : list string :=
  match fuel with
  | O => []
  | S f =>
      match s with
      | EmptyString => []
      | String c s' =>
          if Ascii.eqb c "("%char && String.prefix "https:" s' then
            let u := take_until_paren s' in
            u :: extract_urls_go f (str_drop (String.length u) s')
          else extract_urls_go f s'
      end
  end.

Definition extract_urls (s : string) : list string :=
  extract_urls_go (S (String.length s)) s.

(** [parse_component] *)
Definition parse_component (s : string) : result (string * string) :=
  match split_str " :: " s with
  | [a; b] => Ok (a, b)
  | _ => Err (format_err ("could not parse component '" +:+ s +:+ "'"))
  end.

(** The [while let Some(c) = spec.pop()] loop: trailing digits and
    hyphens are removed. *)
Definition is_digit_or_hyphen (c : ascii) : bool :=
  (("0" <=? c)%char && (c <=? "9")%char) || Ascii.eqb c "-"%char.

Fixpoint pop_digits_hyphens (rev_chars : list ascii) : list ascii :=
  match rev_chars with
  | [] => []
  | c :: t => if is_digit_or_hyphen c then pop_digits_hyphens t else c :: t
  end.

Definition strip_spec_suffix (s : string) : string :=
  String.string_of_list_ascii (rev (pop_digits_hyphens (rev (String.list_ascii_of_string s)))).

(** ** Task bodies ([impl Task for ... { fn run }]) *)

Section Tasks.

Variable config : Config.
Variable repo_config : RepoConfig.
Variable remote : Remote.

Definition updated_issues (owner name since : string) : M (list UpdatedIssue) :=
  call (CUpdatedIssues owner name since) (r_updated_issues remote owner name since).

(** [QueryWGIssuesTask::run] *)
Definition run_query_wg_issues (since : string) : M unit :=
  issues ← updated_issues (wg_repo_owner config) (wg_repo_name config) since;
  (match last issues with
   | Some issue => modify_state (set_last_time_wg (updated_at issue))
   | None => mret tt
   end) ;;
  for_each (fun issue =>
    post_task (QueryWGIssueCommentsTask (issue_number issue) (issue_title issue)
                 (issue_labels issue) since)) issues.

(** The component strings matched by the ["[spec] "] labels of an issue. *)
Definition spec_components (ls : list IssueLabel) : list string :=
  omap (fun label =>
    if String.prefix "[spec] " (label_name label) then
      let spec := strip_spec_suffix (str_drop (String.length "[spec] ") (label_name label)) in
      match components repo_config with
      | Some cs => cs !! spec
      | None => None
      end
    else None) ls.

(** [product_component] before [unwrap_or]. *)
Definition choose_component (ls : list IssueLabel) : option (result (string * string)) :=
  let cs := spec_components ls in
  match cs with
  | [c] => Some (parse_component c)
  | _ =>
      match components repo_config with
      | Some m => option_map parse_component (m !! "default")
      | None => None
      end
  end.

Definition product_component (ls : list IssueLabel) : result (string * string) :=
  default (Ok ("Invalid Bugs", "General")) (choose_component ls).

Definition has_bug_label (ls : list IssueLabel) : bool :=
  existsb (fun label => String.eqb (label_name label) "bug") ls.

(** The body of [for issue in issues] in [QueryDecisionsIssuesTask::run]. *)
Definition process_decisions_issue (issue : UpdatedIssue) : M unit :=
  s ← get_state;
  if bool_decide (issue_number issue ∈ handled_decisions_issues s) then mret tt
  else if negb (has_bug_label (issue_labels issue)) then mret tt
  else
    modify_state (fun s => set_handled_decisions_issues
                             ({[issue_number issue]} ∪ handled_decisions_issues s) s) ;;
    pc ← (fun w => (w, product_component (issue_labels issue)));
    post_task (FileBugForDecisionsIssueTask pc.1 pc.2 (issue_number issue) (id issue)) ;;
    post_task (RemoveDecisionsIssueBugLabelTask (id issue)) ;;
    post_task (CloseIssueTask (id issue)).

(** [QueryDecisionsIssuesTask::run] *)
Definition run_query_decisions_issues (since : string) : M unit :=
  issues ← updated_issues (decisions_repo_owner config) (decisions_repo_name config) since;
  (match last issues with
   | Some issue => modify_state (set_last_time_decisions (updated_at issue))
   | None => mret tt
   end) ;;
  for_each process_decisions_issue issues.

(** [QueryWGIssueCommentsTask::run]; [comment.created_at >= self.since]
    is the lexicographic order of [String]. *)
Definition run_query_wg_issue_comments (number : Z) (title : string)
    (ls : list IssueLabel) (since : string) : M unit :=
  comments ← call (CIssueComments (wg_repo_owner config) (wg_repo_name config) number)
                  (r_issue_comments remote (wg_repo_owner config) (wg_repo_name config) number);
  for_each (fun comment =>
    if String.leb since (created_at comment) then
      post_task (ProcessWGCommentTask number title ls (comment_url comment) (body_text comment))
    else mret tt) comments.

Definition RESOLVED_PREFIX : string := "RESOLVED: ".

Definition resolutions_of (body : string) : list string :=
  map (str_drop (String.length RESOLVED_PREFIX))
      (List.filter (String.prefix RESOLVED_PREFIX) (lines body)).

(** The selection of [desired_labels]: a label is kept when its colour is
    the configured one, or when its name starts with a configured prefix
    (each label is pushed at most once). *)
Definition label_desired (lc : RepoConfigLabels) (label : IssueLabel) : bool :=
  match color lc with
  | Some c => String.eqb (label_color label) c
  | None => false
  end
  || match prefixes lc with
     | Some ps => existsb (fun p => String.prefix p (label_name label)) ps
     | None => false
     end.

Definition desired_labels (ls : list IssueLabel) : list IssueLabel :=
  match labels repo_config with
  | Some lc => List.filter (label_desired lc) ls
  | None => []
  end.

(** [ProcessWGCommentTask::run] *)
Definition run_process_wg_comment (number : Z) (title : string)
    (ls : list IssueLabel) (url : string) (body : string) : M unit :=
  let resolutions := resolutions_of body in
  match resolutions with
  | [] => mret tt
  | _ =>
      s ← get_state;
      if bool_decide (url ∈ handled_wg_comments s) then mret tt
      else
        modify_state (fun s => set_handled_wg_comments
                                 ({[url]} ∪ handled_wg_comments s) s) ;;
        let desired := desired_labels ls in
        for_each (fun label =>
          post_task (EnsureLabelTask ("[spec] " +:+ label_name label) (label_color label)))
          desired ;;
        post_task (FileIssueTask number title
                     (map (fun label => "[spec] " +:+ label_name label) desired)
                     url resolutions)
  end.

(** [QueryDecisionsKnownLabelsTask::run] *)
Definition run_query_known_labels : M unit :=
  result ← call (CKnownLabels (decisions_repo_owner config) (decisions_repo_name config))
                (r_known_labels remote (decisions_repo_owner config) (decisions_repo_name config));
  modify_state (fun s =>
    let kl := default ∅ (known_labels s) in
    set_known_labels
      (Some (foldl (fun m label => <[known_name label := known_id label]> m) kl result)) s).

(** [QueryDecisionsRepoID::run] *)
Definition run_query_repo_id : M unit :=
  result ← call (CRepoId (decisions_repo_owner config) (decisions_repo_name config))
                (r_repo_id remote (decisions_repo_owner config) (decisions_repo_name config));
  match result with
  | None => fail (format_err "repository not found")
  | Some rid => modify_state (set_decisions_repo_id (Some rid))
  end.

(** [EnsureLabelTask::run] *)
Definition run_ensure_label (name color : string) : M unit :=
  s ← get_state;
  match known_labels s with
  | None => post_task QueryDecisionsKnownLabelsTask ;; post_task (EnsureLabelTask name color)
  | Some kl =>
      match decisions_repo_id s with
      | None => post_task QueryDecisionsRepoID ;; post_task (EnsureLabelTask name color)
      | Some rid =>
          if bool_decide (is_Some (kl !! name)) then mret tt
          else
            label_id ← call (CCreateLabel rid name color) (r_create_label remote rid name color);
            modify_state (fun s =>
              set_known_labels (option_map (insert name label_id) (known_labels s)) s)
      end
  end.

(** The body rendered by [FileIssueTask::run]; Rust's [\] line
    continuations drop the line break and the indentation after it. *)
Definition decision_issue_body (number : Z) (title : string) (comment_url : string)
    (resolutions : list string) : string :=
  let plural := match resolutions with
                | [_] => "A resolution was"
                | _ => "Resolutions were"
                end in
  let issue_url := wg_repo_url config +:+ "/issues/" +:+ pretty number in
  plural +:+ " made for [" +:+ wg_repo_name config +:+ "/#" +:+ pretty number
    +:+ "](" +:+ issue_url +:+ ")." +:+ nl
  +:+ nl
  +:+ "**" +:+ escape_markdown title +:+ "**" +:+ nl
  +:+ nl
  +:+ String.concat "" (map (fun r => "* RESOLVED: " +:+ escape_markdown r +:+ nl) resolutions)
    +:+ nl
  +:+ nl
  +:+ "[Discussion.](" +:+ comment_url +:+ ")" +:+ nl
  +:+ nl
  +:+ "----" +:+ nl
  +:+ nl
  +:+ "To file a bug automatically for these resolutions, add the **bug** "
    +:+ "label to the issue." +:+ nl
  +:+ nl
  +:+ "If no bug is needed, the issue can be closed.".

(** [FileIssueTask::run] *)
Definition run_file_issue (number : Z) (title : string) (ls : list string)
    (comment_url : string) (resolutions : list string) : M unit :=
  s ← get_state;
  match known_labels s with
  | None => post_task QueryDecisionsKnownLabelsTask ;;
            post_task (FileIssueTask number title ls comment_url resolutions)
  | Some kl =>
      match decisions_repo_id s with
      | None => post_task QueryDecisionsRepoID ;;
                post_task (FileIssueTask number title ls comment_url resolutions)
      | Some rid =>
          let body := decision_issue_body number title comment_url resolutions in
          let label_ids := omap (fun n => kl !! n) ls in
          _ ← call (CCreateIssue rid title body label_ids)
                   (r_create_issue remote rid title body label_ids);
          mret tt
      end
  end.

(** [RemoveDecisionsIssueBugLabelTask::run] *)
Definition run_remove_bug_label (issue_id : string) : M unit :=
  s ← get_state;
  match known_labels s with
  | None => post_task QueryDecisionsKnownLabelsTask ;;
            post_task (RemoveDecisionsIssueBugLabelTask issue_id)
  | Some kl =>
      match kl !! "bug" with
      | None => fail (format_err "decisions repo missing 'bug' label")
      | Some label_id =>
          call (CRemoveLabels issue_id [label_id]) (r_remove_labels remote issue_id [label_id])
      end
  end.

(** [CloseIssueTask::run] *)
Definition run_close_issue (issue_id : string) : M unit :=
  call (CCloseIssue issue_id) (r_close_issue remote issue_id).

(** [FileBugForDecisionsIssueTask::run] *)
Definition run_file_bug (product component : string) (number : Z) (issue_id : string) : M unit :=
  tb ← call (CIssueTitleAndBody (decisions_repo_owner config) (decisions_repo_name config) number)
            (r_issue_title_and_body remote (decisions_repo_owner config)
               (decisions_repo_name config) number);
  let body := default EmptyString (head (split_str "----" tb.2)) in
  let urls := extract_urls body
              ++ [decisions_repo_url config +:+ "/issues/" +:+ pretty number] in
  post_task (FileBugForDecisionsIssueWithDetailsTask product component tb.1 body urls
               number issue_id).

(** [FileBugForDecisionsIssueWithDetailsTask::run] *)
Definition run_file_bug_with_details (product component summary description : string)
    (urls : list string) (issue_id : string) : M unit :=
  url ← call (CFileBug product component summary description urls)
             (r_file_bug remote product component summary description urls);
  post_task (AddIssueCommentTask issue_id url).

(** [AddIssueCommentTask::run] *)
Definition run_add_issue_comment (issue_id body : string) : M unit :=
  call (CAddIssueComment issue_id body) (r_add_issue_comment remote issue_id body).

(** Dynamic dispatch of [Task::run]. *)
Definition run_task (t : Task) : M unit :=
  match t with
  | QueryWGIssuesTask since => run_query_wg_issues since
  | QueryDecisionsIssuesTask since => run_query_decisions_issues since
  | QueryWGIssueCommentsTask n title ls since => run_query_wg_issue_comments n title ls since
  | ProcessWGCommentTask n title ls url body => run_process_wg_comment n title ls url body
  | QueryDecisionsKnownLabelsTask => run_query_known_labels
  | EnsureLabelTask name color => run_ensure_label name color
  | QueryDecisionsRepoID => run_query_repo_id
  | FileIssueTask n title ls url rs => run_file_issue n title ls url rs
  | RemoveDecisionsIssueBugLabelTask iid => run_remove_bug_label iid
  | CloseIssueTask iid => run_close_issue iid
  | FileBugForDecisionsIssueTask p c n iid => run_file_bug p c n iid
  | FileBugForDecisionsIssueWithDetailsTask p c sm d us _ iid =>
      run_file_bug_with_details p c sm d us iid
  | AddIssueCommentTask iid b => run_add_issue_comment iid b
  end.

(** The merge at the start of [State::iterate]: the staged tasks go in
    front of the pending ones, in order. *)
Definition merge_posted (s : State) : State :=
  match posted_tasks s with
  | [] => s
  | _ => set_posted_tasks [] (set_tasks (posted_tasks s ++ tasks s) s)
  end.

(** [State::iterate] *)
Definition iterate : M unit := fun w =>
  let s := merge_posted (w_state w) in
  match tasks s with
  | [] => (mkWorld s (w_calls w), Ok tt)
  | t :: rest =>
      match run_task t (mkWorld (set_tasks rest s) (w_calls w)) with
      | (w', Err e) =>
          (mkWorld (set_tasks (t :: tasks (w_state w')) (w_state w')) (w_calls w'), Err e)
      | (w', Ok tt) => (w', Ok tt)
      end
  end.

End Tasks.

(** ** The driver loop ([Tracker::run]) and the entry point ([main])

    The file system, the lock and the repository configuration download
    are the environment of the process. Every effect the run has on the
    outside is an event of its trace. *)

Inductive IOEvent : Type :=
| EvOpenLock (path : string)
| EvFetchRepoConfig (url : string)
| EvReadState (path : string)
| EvRemote (c : Call)
| EvSaveState (s : State).

Record Env := mkEnv {
  env_lock_open : result unit;       (* File::create(state_directory/lock) *)
  env_lock_free : bool;              (* try_lock_exclusive().is_ok() *)
  env_repo_config : result RepoConfig; (* the HTTP fetch of config.toml and its parse *)
  env_state_exists : bool;           (* statefile_path.exists() *)
  env_state_file : result State;     (* VersionedState::from_path(statefile_path) *)
  env_save : State -> result unit;   (* State::save(statefile_path, statefile_temp_path) *)
  env_remote : Remote;
}.

Inductive LoopOutcome : Type :=
| Continue (s : State)
| Halt (r : result unit).

Section Driver.

Variable config : Config.
Variable env : Env.

Definition statefile_path : string := state_directory config +:+ "/state".
Definition lockfile_path : string := state_directory config +:+ "/lock".

(** One pass of the [loop] of [Tracker::run]:
    [let result = self.state.iterate(..); self.state.save(..)?; result?;
     if self.state.is_finished() { return Ok(()) }]. *)
Definition loop_body (repo_config : RepoConfig) (s : State) : list IOEvent * LoopOutcome :=
  let '(w', r) := iterate config repo_config (env_remote env) (mkWorld s []) in
  let s' := w_state w' in
  let events := map EvRemote (w_calls w') ++ [EvSaveState s'] in
  match env_save env s' with
  | Err e => (events, Halt (Err e))
  | Ok _ =>
      match r with
      | Err e => (events, Halt (Err e))
      | Ok _ => if is_finished s' then (events, Halt (Ok tt)) else (events, Continue s')
      end
  end.

(** The loop, run for at most [fuel] passes ([None]: still running). *)
Fixpoint drive (fuel : nat) (repo_config : RepoConfig) (s : State)
    : list IOEvent * option (result unit) :=
  match fuel with
  | O => ([], None)
  | S f =>
      match loop_body repo_config s with
      | (ev, Halt r) => (ev, Some r)
      | (ev, Continue s') => let '(ev', r) := drive f repo_config s' in (ev ++ ev', r)
      end
  end.

(** [Tracker::try_lock] *)
Definition try_lock : list IOEvent * result bool :=
  ([EvOpenLock lockfile_path],
   match env_lock_open env with
   | Err e => Err (with_context "Could not open lockfile" e)
   | Ok _ => Ok (env_lock_free env)
   end).

(** [Tracker::run] *)
Definition tracker_run (fuel : nat) : list IOEvent * option (result unit) :=
  match try_lock with
  | (ev, Err e) => (ev, Some (Err e))
  | (ev, Ok false) => (ev, Some (Ok tt))
  | (ev, Ok true) =>
      let url := "https://raw.githubusercontent.com/" +:+ decisions_repo_owner config
                 +:+ "/" +:+ decisions_repo_name config +:+ "/master/config.toml" in
      let ev := ev ++ [EvFetchRepoConfig url] in
      match env_repo_config env with
      | Err e => (ev, Some (Err e))
      | Ok rc =>
          let loaded :=
            if env_state_exists env
            then (ev ++ [EvReadState statefile_path], env_state_file env)
            else (ev, Ok (State_new (start_date config))) in
          match loaded with
          | (ev, Err e) => (ev, Some (Err e))
          | (ev, Ok s) =>
              let '(ev', r) := drive fuel rc (check_for_updates s) in (ev ++ ev', r)
          end
      end
  end.

End Driver.

(** [main]: the result of [run()] (the config is loaded, then
    [Tracker::run]) decides what is printed; [main] returns [()] in both
    cases, and a Rust [main] that returns [()] exits with status 0. *)
Record ProcessExit := mkProcessExit { stdout_lines : list string; exit_status : Z }.

Definition error_line (now : string) (e : Error) : string :=
  "[" +:+ now +:+ "] error: " +:+ err_msg e
  +:+ match err_cause e with Some c => ": " +:+ c | None => "" end.

Definition main_exit (now : string) (run_result : result unit) : ProcessExit :=
  match run_result with
  | Err e => mkProcessExit [error_line now e] 0
  | Ok _ => mkProcessExit [] 0
  end.

(** [fn run()] of [main.rs]: [Config::from_file] then [Tracker::run]. *)
Definition top_run (fuel : nat) (config_file : result Config) (env : Env)
    : list IOEvent * option (result unit) :=
  match config_file with
  | Err e => ([], Some (Err e))
  | Ok config => tracker_run config env fuel
  end.

(** ** The snapshot file ([State::save], [VersionedState::from_path])

    [serde_json] turns a value into a JSON document; [Json] is that
    document. The [Serialize]/[Deserialize] derives of [State] and of the
    task structs (tagged by [typetag] with a "type" entry) are translated
    below; the JSON text layer of [serde_json] is a parameter of the
    snapshot functions. An [i64] field is a [Z] (its values are those of an
    [i64]); a [HashSet] is written as the array of its elements. *)
#[warnings="-register-all"]
Inductive Json : Type :=
| JNull
| JBool (b : bool)
| JNum (z : Z)
| JStr (s : string)
| JArr (l : list Json)
| JObj (fs : list (string * Json)).

Global Instance result_ret : MRet result := fun A a => Ok a.
Global Instance result_bind : MBind result := fun A B k r =>
  match r with Ok a => k a | Err e => Err e end.

Definition label_to_json (l : IssueLabel) : Json :=
  JObj [("name", JStr (label_name l)); ("color", JStr (label_color l))].

Definition strs_to_json (l : list string) : Json := JArr (map JStr l).

Definition tagged (tag : string) (fs : list (string * Json)) : Json :=
  JObj (("type", JStr tag) :: fs).

(** [#[derive(Serialize)]] of the task structs, through [typetag]. *)
Definition task_to_json (t : Task) : Json :=
  match t with
  | QueryWGIssuesTask since => tagged "QueryWGIssuesTask" [("since", JStr since)]
  | QueryDecisionsIssuesTask since => tagged "QueryDecisionsIssuesTask" [("since", JStr since)]
  | QueryWGIssueCommentsTask n title ls since =>
      tagged "QueryWGIssueCommentsTask"
        [("number", JNum n); ("issue_title", JStr title);
         ("issue_labels", JArr (map label_to_json ls)); ("since", JStr since)]
  | ProcessWGCommentTask n title ls url body =>
      tagged "ProcessWGCommentTask"
        [("issue_number", JNum n); ("issue_title", JStr title);
         ("issue_labels", JArr (map label_to_json ls)); ("url", JStr url);
         ("body_text", JStr body)]
  | QueryDecisionsKnownLabelsTask => tagged "QueryDecisionsKnownLabelsTask" []
  | EnsureLabelTask name color =>
      tagged "EnsureLabelTask" [("name", JStr name); ("color", JStr color)]
  | QueryDecisionsRepoID => tagged "QueryDecisionsRepoID" []
  | FileIssueTask n title ls url rs =>
      tagged "FileIssueTask"
        [("issue_number", JNum n); ("issue_title", JStr title);
         ("issue_labels", strs_to_json ls); ("comment_url", JStr url);
         ("resolutions", strs_to_json rs)]
  | RemoveDecisionsIssueBugLabelTask iid =>
      tagged "RemoveDecisionsIssueBugLabelTask" [("issue_id", JStr iid)]
  | CloseIssueTask iid => tagged "CloseIssueTask" [("issue_id", JStr iid)]
  | FileBugForDecisionsIssueTask p c n iid =>
      tagged "FileBugForDecisionsIssueTask"
        [("product", JStr p); ("component", JStr c); ("issue_number", JNum n);
         ("issue_id", JStr iid)]
  | FileBugForDecisionsIssueWithDetailsTask p c sm d us n iid =>
      tagged "FileBugForDecisionsIssueWithDetailsTask"
        [("product", JStr p); ("component", JStr c); ("summary", JStr sm);
         ("description", JStr d); ("urls", strs_to_json us); ("issue_number", JNum n);
         ("issue_id", JStr iid)]
  | AddIssueCommentTask iid body =>
      tagged "AddIssueCommentTask" [("issue_id", JStr iid); ("body", JStr body)]
  end.

(** [#[derive(Serialize)]] of [State]: the [#[serde(skip)]] fields are
    left out. *)
Definition state_to_json (s : State) : Json :=
  JObj [("tasks", JArr (map task_to_json (tasks s)));
        ("posted_tasks", JArr (map task_to_json (posted_tasks s)));
        ("handled_wg_comments", JArr (map JStr (elements (handled_wg_comments s))));
        ("handled_decisions_issues", JArr (map JNum (elements (handled_decisions_issues s))));
        ("last_time_wg", JStr (last_time_wg s));
        ("last_time_decisions", JStr (last_time_decisions s))].

Definition type_error (what : string) : Error := format_err ("invalid type: expected " +:+ what).

Definition as_obj (j : Json) : result (list (string * Json)) :=
  match j with
  | JObj fs => if bool_decide (NoDup (map fst fs)) then Ok fs
               else Err (format_err "duplicate field")
  | _ => Err (type_error "a map")
  end.
Definition as_str (j : Json) : result string :=
  match j with JStr s => Ok s | _ => Err (type_error "a string") end.
Definition as_num (j : Json) : result Z :=
  match j with JNum z => Ok z | _ => Err (type_error "i64") end.
Definition as_arr (j : Json) : result (list Json) :=
  match j with JArr l => Ok l | _ => Err (type_error "a sequence") end.

(** A struct field: unknown fields are ignored, a missing one is an error. *)
Fixpoint field (fs : list (string * Json)) (k : string) : result Json :=
  match fs with
  | [] => Err (format_err ("missing field `" +:+ k +:+ "`"))
  | (k', v) :: fs' => if String.eqb k k' then Ok v else field fs' k
  end.

Fixpoint mapM_result {A B} (f : A -> result B) (l : list A) : result (list B) :=
  match l with
  | [] => Ok []
  | x :: l' => y ← f x; ys ← mapM_result f l'; Ok (y :: ys)
  end.

Definition str_field fs k : result string := field fs k ≫= as_str.
Definition num_field fs k : result Z := field fs k ≫= as_num.
Definition strs_field fs k : result (list string) :=
  (field fs k ≫= as_arr) ≫= mapM_result as_str.

Definition label_of_json (j : Json) : result IssueLabel :=
  fs ← as_obj j; n ← str_field fs "name"; c ← str_field fs "color"; Ok (mkIssueLabel n c).

Definition labels_field fs k : result (list IssueLabel) :=
  (field fs k ≫= as_arr) ≫= mapM_result label_of_json.

(** [#[derive(Deserialize)]] of the task structs, through [typetag]: the
    "type" entry selects the struct. *)
Definition task_of_json (j : Json) : result Task :=
  fs ← as_obj j;
  tag ← str_field fs "type";
  if String.eqb tag "QueryWGIssuesTask" then
    since ← str_field fs "since"; Ok (QueryWGIssuesTask since)
  else if String.eqb tag "QueryDecisionsIssuesTask" then
    since ← str_field fs "since"; Ok (QueryDecisionsIssuesTask since)
  else if String.eqb tag "QueryWGIssueCommentsTask" then
    n ← num_field fs "number"; title ← str_field fs "issue_title";
    ls ← labels_field fs "issue_labels"; since ← str_field fs "since";
    Ok (QueryWGIssueCommentsTask n title ls since)
  else if String.eqb tag "ProcessWGCommentTask" then
    n ← num_field fs "issue_number"; title ← str_field fs "issue_title";
    ls ← labels_field fs "issue_labels"; url ← str_field fs "url";
    body ← str_field fs "body_text";
    Ok (ProcessWGCommentTask n title ls url body)
  else if String.eqb tag "QueryDecisionsKnownLabelsTask" then
    Ok QueryDecisionsKnownLabelsTask
  else if String.eqb tag "EnsureLabelTask" then
    name ← str_field fs "name"; color ← str_field fs "color";
    Ok (EnsureLabelTask name color)
  else if String.eqb tag "QueryDecisionsRepoID" then
    Ok QueryDecisionsRepoID
  else if String.eqb tag "FileIssueTask" then
    n ← num_field fs "issue_number"; title ← str_field fs "issue_title";
    ls ← strs_field fs "issue_labels"; url ← str_field fs "comment_url";
    rs ← strs_field fs "resolutions";
    Ok (FileIssueTask n title ls url rs)
  else if String.eqb tag "RemoveDecisionsIssueBugLabelTask" then
    iid ← str_field fs "issue_id"; Ok (RemoveDecisionsIssueBugLabelTask iid)
  else if String.eqb tag "CloseIssueTask" then
    iid ← str_field fs "issue_id"; Ok (CloseIssueTask iid)
  else if String.eqb tag "FileBugForDecisionsIssueTask" then
    p ← str_field fs "product"; c ← str_field fs "component";
    n ← num_field fs "issue_number"; iid ← str_field fs "issue_id";
    Ok (FileBugForDecisionsIssueTask p c n iid)
  else if String.eqb tag "FileBugForDecisionsIssueWithDetailsTask" then
    p ← str_field fs "product"; c ← str_field fs "component";
    sm ← str_field fs "summary"; d ← str_field fs "description";
    us ← strs_field fs "urls"; n ← num_field fs "issue_number";
    iid ← str_field fs "issue_id";
    Ok (FileBugForDecisionsIssueWithDetailsTask p c sm d us n iid)
  else if String.eqb tag "AddIssueCommentTask" then
    iid ← str_field fs "issue_id"; body ← str_field fs "body";
    Ok (AddIssueCommentTask iid body)
  else Err (format_err ("unknown variant `" +:+ tag +:+ "`")).

Definition tasks_field fs k : result (list Task) :=
  (field fs k ≫= as_arr) ≫= mapM_result task_of_json.

(** [#[derive(Deserialize)]] of [State]: the [#[serde(skip)]] fields get
    their [Default], [None]. *)
Definition state_of_json (j : Json) : result State :=
  fs ← as_obj j;
  ts ← tasks_field fs "tasks";
  ps ← tasks_field fs "posted_tasks";
  hw ← strs_field fs "handled_wg_comments";
  hd ← (field fs "handled_decisions_issues" ≫= as_arr) ≫= mapM_result as_num;
  lw ← str_field fs "last_time_wg";
  ld ← str_field fs "last_time_decisions";
  Ok (mkState ts ps (list_to_set hw) (list_to_set hd) None None lw ld).

(** [str::parse::<u32>]: an optional "+", then decimal digits, at most
    [u32::MAX]. *)
Definition is_digit (c : ascii) : bool := (("0" <=? c)%char && (c <=? "9")%char).

Fixpoint parse_digits (acc : N) (s : string) : result N :=
  match s with
  | EmptyString => Ok acc
  | String c s' =>
      if is_digit c then
        let acc' := (acc * 10 + (N_of_ascii c - N_of_ascii "0"))%N in
        if (acc' <=? 4294967295)%N then parse_digits acc' s'
        else Err (format_err "number too large to fit in target type")
      else Err (format_err "invalid digit found in string")
  end.

Definition parse_u32 (s : string) : result N :=
  match s with
  | EmptyString => Err (format_err "cannot parse integer from empty string")
  | String c s' =>
      let digits := if Ascii.eqb c "+"%char then s' else s in
      match digits with
      | EmptyString => Err (format_err "invalid digit found in string")
      | _ => parse_digits 0 digits
      end
  end.

(** [contents.find('\n')] with the slices before and after it. *)
Fixpoint split_first_nl (s : string) : option (string * string) :=
  match s with
  | EmptyString => None
  | String c s' =>
      if Ascii.eqb c "010"%char then Some (EmptyString, s')
      else match split_first_nl s' with
           | Some (a, b) => Some (String c a, b)
           | None => None
           end
  end.

Section Snapshot.

(** The JSON text layer of [serde_json]: [to_writer_pretty] and the text
    parsing of [from_str]. *)
Variable json_to_string : Json -> string.
Variable json_of_string : string -> result Json.

(** The contents [State::save] writes to the temporary file, renamed to the
    state file: [writeln!(file, "1")], then the document. *)
Definition save_contents (s : State) : string :=
  "1" +:+ nl +:+ json_to_string (state_to_json s).

(** [State::from_versioned_str] *)
Definition from_versioned_str (version : N) (json : string) : result State :=
  if (version =? 1)%N then
    match json_of_string json ≫= state_of_json with
    | Ok s => Ok s
    | Err e => Err (with_context ("could not parse state file v" +:+ pretty version) e)
    end
  else Err (format_err ("unknown state file version number " +:+ pretty version)).

(** [VersionedState::from_path], on the contents read from the file. *)
Definition from_path_contents (contents : string) : result State :=
  match split_first_nl contents with
  | Some (line, json) =>
      match parse_u32 line with
      | Ok version => from_versioned_str version json
      | Err e => Err (with_context "could not parse version number in state file" e)
      end
  | None => Err (format_err "could not find version number in state file")
  end.

End Snapshot.

(** ** The configuration file ([Config::from_file], [validate_syntax]) *)

(** [REPO_ID_RE] is [^[0-9A-Za-z_-]+$]: one or more characters of the
    class, and nothing else ([$] is the end of the text). *)
Definition is_repo_id_char (c : ascii) : bool :=
  is_digit c || (("A" <=? c)%char && (c <=? "Z")%char)
  || (("a" <=? c)%char && (c <=? "z")%char)
  || Ascii.eqb c "_"%char || Ascii.eqb c "-"%char.

Definition repo_id_re_match (s : string) : bool :=
  match s with
  | EmptyString => false
  | _ => forallb is_repo_id_char (String.list_ascii_of_string s)
  end.

(** [validate_syntax] *)
Definition validate_syntax (key value : string) (is_match : string -> bool) : result unit :=
  if is_match value then Ok tt
  else Err (format_err ("config file " +:+ key +:+ " value has the wrong syntax")).

Section ConfigFile.

(** [DATE_RE] ([^(\d\d\d\d)-(\d\d)-(\d\d)$], with Unicode digits) and the
    TOML deserialisation of [Config] are parameters. *)
Variable date_re_match : string -> bool.
Variable config_of_toml : string -> result Config.

(** The checks of [Config::from_file] after the TOML parse, in order. *)
Definition validate_config (config : Config) : result Config :=
  validate_syntax "wg_repo_owner" (wg_repo_owner config) repo_id_re_match ;;
  validate_syntax "wg_repo_name" (wg_repo_name config) repo_id_re_match ;;
  validate_syntax "decisions_repo_owner" (decisions_repo_owner config) repo_id_re_match ;;
  validate_syntax "decisions_repo_name" (decisions_repo_name config) repo_id_re_match ;;
  validate_syntax "start_date" (start_date config) date_re_match ;;
  Ok config.

(** [Config::from_file], on the text read from the file. *)
Definition config_from_toml (toml : string) : result Config :=
  match config_of_toml toml with
  | Err e => Err (with_context "could not parse config file" e)
  | Ok config => validate_config config
  end.

End ConfigFile.

(** ** Concrete inputs used by the examples below *)

Definition ex_config : Config :=
  mkConfig "ghkey" "bzkey" "w3c" "csswg-drafts" "w3c" "csswg-decisions"
    "/var/lib/wg-tracker" "2019-05-01".

(** A remote side on which every call fails with [e]. *)
Definition err_remote (e : Error) : Remote :=
  mkRemote (fun _ _ _ => Err e) (fun _ _ _ => Err e) (fun _ _ => Err e) (fun _ _ => Err e)
    (fun _ _ _ => Err e) (fun _ _ _ _ => Err e) (fun _ _ => Err e) (fun _ => Err e)
    (fun _ _ => Err e) (fun _ _ _ => Err e) (fun _ _ _ _ _ => Err e).

Definition net_error : Error := format_err "could not perform network request".

Definition bug_label : IssueLabel := mkIssueLabel "bug" "d73a4a".

Definition ex_issue_fonts : UpdatedIssue :=
  mkUpdatedIssue "MDU6SXNzdWU3" 7 "Font loading"
    [bug_label; mkIssueLabel "[spec] css-fonts-4" "e0e0e0"] "2019-06-01T10:00:00Z".

Definition ex_issue_grid : UpdatedIssue :=
  mkUpdatedIssue "MDU6SXNzdWU4" 8 "Grid gaps"
    [bug_label; mkIssueLabel "[spec] css-grid-1" "e0e0e0"] "2019-06-02T10:00:00Z".

(** The component of [css-grid] is not of the form "Product :: Component". *)
Definition ex_repo_config_bad : RepoConfig :=
  mkRepoConfig None
    (Some (<["css-fonts" := "CSS :: Fonts"]> (<["css-grid" := "CSS Grid"]> ∅))).

(** A remote side that answers the decisions poll with [batch] and fails
    everywhere else. *)
Definition batch_remote (batch : list UpdatedIssue) : Remote :=
  mkRemote (fun _ _ _ => Ok batch) (fun _ _ _ => Err net_error) (fun _ _ => Err net_error)
    (fun _ _ => Err net_error) (fun _ _ _ => Err net_error) (fun _ _ _ _ => Err net_error)
    (fun _ _ => Err net_error) (fun _ => Err net_error) (fun _ _ => Err net_error)
    (fun _ _ _ => Err net_error) (fun _ _ _ _ _ => Err net_error).

Definition ex_state_poll : State :=
  set_tasks [QueryDecisionsIssuesTask "2019-01-01T00:00:00Z"] (State_new "2019-05-01").

Definition save_error : Error :=
  with_context "could not create temporary state file" (format_err "No space left on device").

Definition ex_env (save_ok : bool) (R : Remote) : Env :=
  mkEnv (Ok tt) true (Ok ex_repo_config_bad) false (Err (format_err "no state file"))
    (fun _ => if save_ok then Ok tt else Err save_error) R.

(** A working-group comment with two resolutions, on issue #42. *)
Definition ex_body : string :=
  "Some text" +:+ nl +:+ "RESOLVED: Use UTF-8" +:+ nl +:+ "RESOLVED: Reject nulls" +:+ nl.

Definition ex_url : string :=
  "https://github.com/w3c/csswg-drafts/issues/42#issuecomment-500".

Definition ex_wg_labels : list IssueLabel :=
  [mkIssueLabel "css-fonts-4" "e0e0e0"; mkIssueLabel "Agenda+" "ff0000"].

Definition ex_repo_config_labels : RepoConfig :=
  mkRepoConfig (Some (mkRepoConfigLabels (Some "e0e0e0") (Some ["css-"]))) None.

Definition ex_comment_task : Task :=
  ProcessWGCommentTask 42 "Encoding" ex_wg_labels ex_url ex_body.

Definition ex_comment_run1 : World * result unit :=
  run_task ex_config ex_repo_config_labels (err_remote net_error) ex_comment_task
    (mkWorld (State_new "2019-05-01") []).

Definition ex_comment_run2 : World * result unit :=
  run_task ex_config ex_repo_config_labels (err_remote net_error) ex_comment_task
    (mkWorld (w_state (fst ex_comment_run1)) (w_calls (fst ex_comment_run1))).

Definition ex_repo_config_fonts : RepoConfig :=
  mkRepoConfig None (Some (<["css-fonts" := "CSS :: Fonts"]> ∅)).

(** Issue #7 is already in the decision-issue ledger. *)
Definition ex_state_handled : State :=
  set_handled_decisions_issues {[7%Z]} ex_state_poll.

Definition ex_qdi_run : World * result unit :=
  run_task ex_config ex_repo_config_fonts (batch_remote [ex_issue_fonts; ex_issue_grid])
    (QueryDecisionsIssuesTask "2019-01-01T00:00:00Z") (mkWorld ex_state_handled []).

(** A decision issue labeled ["bug", "[spec] widget-12"], and a component
    map with the single entry "widget" -> "Widgets :: Core". *)
Definition ex_issue_widget : UpdatedIssue :=
  mkUpdatedIssue "MDU6SXNzdWU1" 5 "Widget sizing"
    [bug_label; mkIssueLabel "[spec] widget-12" "e0e0e0"] "2019-06-03T10:00:00Z".

Definition ex_repo_config_widget : RepoConfig :=
  mkRepoConfig None (Some (<["widget" := "Widgets :: Core"]> ∅)).

(** [hay.contains(needle)] *)
Fixpoint contains_sub (needle hay : string) : bool :=
  String.prefix needle hay ||
  match hay with
  | EmptyString => false
  | String _ hay' => contains_sub needle hay'
  end.

(** A JSON text codec standing in for [serde_json]'s text layer in the
    examples: a prefix code, with its decoder. *)
Fixpoint enc_pos (p : positive) : string :=
  match p with
  | xI p' => String "1" (enc_pos p')
  | xO p' => String "0" (enc_pos p')
  | xH => "."
  end.

Definition enc_Z (z : Z) : string :=
  match z with
  | Z0 => "z"
  | Zpos p => String "p" (enc_pos p)
  | Zneg p => String "m" (enc_pos p)
  end.

Fixpoint enc_str (s : string) : string :=
  match s with
  | EmptyString => "."
  | String c s' => String "+" (String c (enc_str s'))
  end.

Fixpoint enc_json (j : Json) : string :=
  match j with
  | JNull => "n"
  | JBool b => if b then "t" else "f"
  | JNum z => enc_Z z
  | JStr s => String "s" (enc_str s)
  | JArr l =>
      String "[" ((fix go (l : list Json) : string :=
                     match l with
                     | [] => "]"
                     | j' :: l' => String "," (enc_json j' +:+ go l')
                     end) l)
  | JObj fs =>
      String "{" ((fix go (fs : list (string * Json)) : string :=
                     match fs with
                     | [] => "}"
                     | (k, v) :: fs' => String "," (enc_str k +:+ enc_json v +:+ go fs')
                     end) fs)
  end.

Fixpoint enc_list (l : list Json) : string :=
  match l with
  | [] => "]"
  | j :: l' => String "," (enc_json j +:+ enc_list l')
  end.

Fixpoint enc_fields (fs : list (string * Json)) : string :=
  match fs with
  | [] => "}"
  | (k, v) :: fs' => String "," (enc_str k +:+ enc_json v +:+ enc_fields fs')
  end.

Fixpoint dec_pos (s : string) : option (positive * string) :=
  match s with
  | String c s' =>
      if Ascii.eqb c "." then Some (xH, s')
      else if Ascii.eqb c "1" then
        match dec_pos s' with Some (p, r) => Some (xI p, r) | None => None end
      else if Ascii.eqb c "0" then
        match dec_pos s' with Some (p, r) => Some (xO p, r) | None => None end
      else None
  | EmptyString => None
  end.

Fixpoint dec_str (s : string) : option (string * string) :=
  match s with
  | String c s' =>
      if Ascii.eqb c "." then Some (EmptyString, s')
      else if Ascii.eqb c "+" then
        match s' with
        | String c' s'' =>
            match dec_str s'' with Some (x, r) => Some (String c' x, r) | None => None end
        | EmptyString => None
        end
      else None
  | EmptyString => None
  end.

Fixpoint dec_json (fuel : nat) (s : string) : option (Json * string) :=
  match fuel with
  | O => None
  | S f =>
      match s with
      | EmptyString => None
      | String c s' =>
          if Ascii.eqb c "n" then Some (JNull, s')
          else if Ascii.eqb c "t" then Some (JBool true, s')
          else if Ascii.eqb c "f" then Some (JBool false, s')
          else if Ascii.eqb c "z" then Some (JNum Z0, s')
          else if Ascii.eqb c "p" then
            match dec_pos s' with Some (p, r) => Some (JNum (Zpos p), r) | None => None end
          else if Ascii.eqb c "m" then
            match dec_pos s' with Some (p, r) => Some (JNum (Zneg p), r) | None => None end
          else if Ascii.eqb c "s" then
            match dec_str s' with Some (x, r) => Some (JStr x, r) | None => None end
          else if Ascii.eqb c "[" then
            match dec_list f s' with Some (l, r) => Some (JArr l, r) | None => None end
          else if Ascii.eqb c "{" then
            match dec_fields f s' with Some (fs, r) => Some (JObj fs, r) | None => None end
          else None
      end
  end
with dec_list (fuel : nat) (s : string) : option (list Json * string) :=
  match fuel with
  | O => None
  | S f =>
      match s with
      | String c s' =>
          if Ascii.eqb c "]" then Some ([], s')
          else if Ascii.eqb c "," then
            match dec_json f s' with
            | Some (j, r) =>
                match dec_list f r with Some (l, r') => Some (j :: l, r') | None => None end
            | None => None
            end
          else None
      | EmptyString => None
      end
  end
with dec_fields (fuel : nat) (s : string) : option (list (string * Json) * string) :=
  match fuel with
  | O => None
  | S f =>
      match s with
      | String c s' =>
          if Ascii.eqb c "}" then Some ([], s')
          else if Ascii.eqb c "," then
            match dec_str s' with
            | Some (k, r) =>
                match dec_json f r with
                | Some (v, r') =>
                    match dec_fields f r' with
                    | Some (fs, r'') => Some ((k, v) :: fs, r'')
                    | None => None
                    end
                | None => None
                end
            | None => None
            end
          else None
      | EmptyString => None
      end
  end.

Definition codec_parse (s : string) : result Json :=
  match dec_json (String.length s) s with
  | Some (j, EmptyString) => Ok j
  | _ => Err (format_err "expected value")
  end.

(** A state with pending, staged and handled entries and both caches. *)
Definition ex_state_saved : State :=
  mkState [QueryWGIssuesTask "2019-06-01T00:00:00Z"; ex_comment_task;
           FileBugForDecisionsIssueTask "CSS" "Fonts" 7 "MDU6SXNzdWU3"]
          [EnsureLabelTask "[spec] css-fonts-4" "e0e0e0"; QueryDecisionsRepoID]
          {[ex_url]} {[7%Z; 8%Z]}
          (Some (<["[spec] css-fonts-4" := "LA_fonts"]> ∅)) (Some "R_kgDOrepo")
          "2019-06-02T10:00:00Z" "2019-06-01T10:00:00Z".

(** Two comments on issue #42: one before and one after 2019-05-01. *)
Definition ex_comments : list IssueComment :=
  [mkIssueComment "https://github.com/w3c/csswg-drafts/issues/42#issuecomment-400"
     "2019-04-20T09:00:00Z" "Earlier discussion";
   mkIssueComment ex_url "2019-06-01T09:00:00Z" ex_body].

(** A remote side on which every call succeeds. *)
Definition ex_remote : Remote :=
  mkRemote (fun _ _ _ => Ok [ex_issue_fonts; ex_issue_widget])
    (fun _ _ _ => Ok ex_comments)
    (fun _ _ => Ok [mkKnownLabel "LA_bug" "bug"; mkKnownLabel "LA_fonts" "[spec] css-fonts-4"])
    (fun _ _ => Ok (Some "R_kgDOrepo"))
    (fun _ _ _ => Ok "LA_new")
    (fun _ _ _ _ => Ok "I_new")
    (fun _ _ => Ok tt) (fun _ => Ok tt) (fun _ _ => Ok tt)
    (fun _ _ _ => Ok ("Widget sizing", "See [minutes](https://example.org/m)." +:+ nl +:+ "----" +:+ nl))
    (fun _ _ _ _ _ => Ok "https://bugzilla.mozilla.org/show_bug.cgi?id=1").

(** An environment whose existing state file cannot be read. *)
Definition ex_env_corrupt : Env :=
  mkEnv (Ok tt) true (Ok ex_repo_config_labels) true
    (Err (format_err "could not find version number in state file")) (fun _ => Ok tt) ex_remote.

(** ** Notions used in the statements below *)

(** [sstep s s']: the pending queue is unchanged, the staging list only
    grows at its end, and the two ledgers only grow. *)
Definition sstep (s s' : State) : Prop :=
  tasks s' = tasks s /\
  (exists l, posted_tasks s' = posted_tasks s ++ l) /\
  handled_wg_comments s ⊆ handled_wg_comments s' /\
  handled_decisions_issues s ⊆ handled_decisions_issues s'.

(** The same for a world, whose call log only grows at its end. *)
Definition wstep (w w' : World) : Prop :=
  sstep (w_state w) (w_state w') /\ exists l, w_calls w' = w_calls w ++ l.

(** A computation of the task monad whose every run is a [wstep]. *)
Definition Mono {A} (m : M A) : Prop := forall w w' r, m w = (w', r) -> wstep w w'.

(** The [FileIssueTask]s of a list of tasks. *)
Definition is_file_issue (t : Task) : bool :=
  match t with FileIssueTask _ _ _ _ _ => true | _ => false end.

Definition count_file_issue (l : list Task) : nat := length (List.filter is_file_issue l).

(** Which tasks a monadic computation appends to the staging list. *)
Definition Stages {A} (P : Task -> Prop) (m : M A) : Prop :=
  forall w w' r, m w = (w', r) ->
  exists l, posted_tasks (w_state w') = posted_tasks (w_state w) ++ l /\ Forall P l.

Definition not_file_bug (t : Task) : Prop :=
  match t with FileBugForDecisionsIssueTask _ _ _ _ => False | _ => True end.

(** The three follow-on tasks staged for the decision issue [i]. *)
Definition decisions_follow_ups (i : UpdatedIssue) (p c : string) : list Task :=
  [FileBugForDecisionsIssueTask p c (issue_number i) (id i);
   RemoveDecisionsIssueBugLabelTask (id i); CloseIssueTask (id i)].

(** A follow-on task staged for the decision issue [i]. *)
Definition staged_for (i : UpdatedIssue) (t : Task) : Prop :=
  (exists p c, t = FileBugForDecisionsIssueTask p c (issue_number i) (id i)) \/
  t = RemoveDecisionsIssueBugLabelTask (id i) \/ t = CloseIssueTask (id i).

(** The [FileBugForDecisionsIssueTask]s for the decision issue [n]. *)
Definition is_file_bug_for (n : Z) (t : Task) : bool :=
  match t with FileBugForDecisionsIssueTask _ _ m _ => Z.eqb m n | _ => false end.

Definition count_file_bug (n : Z) (l : list Task) : nat :=
  length (List.filter (is_file_bug_for n) l).

(** The batch the decisions poll works on. *)
Definition decisions_batch (config : Config) (R : Remote) (since : string) : list UpdatedIssue :=
  match r_updated_issues R (decisions_repo_owner config) (decisions_repo_name config) since with
  | Ok b => b
  | Err _ => []
  end.

(** The staged tasks of every step of a run, in order. *)
Fixpoint run_steps (config : Config) (rc : RepoConfig) (Rs : list Remote) (w : World)
    : World * list Task :=
  match Rs with
  | [] => (w, [])
  | R :: Rs' =>
      let w1 := fst (iterate config rc R w) in
      let '(w2, staged) := run_steps config rc Rs' w1 in
      (w2, posted_tasks (w_state w1) ++ staged)
  end.

(** * Proofs *)

(** ** What a task may do to the state

    A task never touches the pending queue, only appends to the staging
    list, only adds to the two ledgers, and only appends to the call log. *)

Lemma sstep_refl s : sstep s s.
Proof. repeat split; try set_solver. exists []. by rewrite app_nil_r. Qed.

Lemma sstep_trans s1 s2 s3 : sstep s1 s2 -> sstep s2 s3 -> sstep s1 s3.
Proof.
  intros (T1 & [l1 P1] & H1 & D1) (T2 & [l2 P2] & H2 & D2).
  repeat split.
  - congruence.
  - exists (l1 ++ l2). rewrite P2, P1. by rewrite app_assoc.
  - set_solver.
  - set_solver.
Qed.

Lemma wstep_refl w : wstep w w.
Proof. split; [apply sstep_refl|]. exists []. by rewrite app_nil_r. Qed.

Lemma wstep_trans w1 w2 w3 : wstep w1 w2 -> wstep w2 w3 -> wstep w1 w3.
Proof.
  intros [S1 [l1 C1]] [S2 [l2 C2]]. split; [eapply sstep_trans; eauto|].
  exists (l1 ++ l2). rewrite C2, C1. by rewrite app_assoc.
Qed.

Lemma mono_ret {A} (a : A) : Mono (mret a).
Proof. intros w w' r H. inversion H; subst. apply wstep_refl. Qed.

Lemma mono_bind {A B} (m : M A) (k : A -> M B) :
  Mono m -> (forall a, Mono (k a)) -> Mono (m ≫= k).
Proof.
  intros Hm Hk w w' r. unfold mbind, M_bind.
  destruct (m w) as [w1 [a|e]] eqn:E; intros H.
  - eapply wstep_trans; [eapply Hm; eauto | eapply Hk; eauto].
  - inversion H; subst. eapply Hm; eauto.
Qed.

Lemma mono_get : Mono get_state.
Proof. intros w w' r H. inversion H; subst. apply wstep_refl. Qed.

Lemma mono_pure {A} (r0 : result A) : Mono (fun w => (w, r0)).
Proof. intros w w' r H. inversion H; subst. apply wstep_refl. Qed.

Lemma mono_fail {A} (e : Error) : Mono (fail (A:=A) e).
Proof. intros w w' r H. inversion H; subst. apply wstep_refl. Qed.

Lemma mono_call {A} (c : Call) (r0 : result A) : Mono (call c r0).
Proof.
  intros w w' r H. inversion H; subst. split; [apply sstep_refl|]. by exists [c].
Qed.

Lemma mono_modify (f : State -> State) : (forall s, sstep s (f s)) -> Mono (modify_state f).
Proof.
  intros Hf w w' r H. inversion H; subst. split; [apply Hf|]. exists []. by rewrite app_nil_r.
Qed.

Lemma mono_post t : Mono (post_task t).
Proof.
  apply mono_modify. intros s. repeat split; simpl; try (by exists [t]); set_solver.
Qed.

Lemma mono_for_each {A} (f : A -> M unit) (xs : list A) :
  (forall x, Mono (f x)) -> Mono (for_each f xs).
Proof.
  intros Hf. induction xs as [|x xs IH]; simpl.
  - apply mono_ret.
  - apply mono_bind; auto.
Qed.

Create HintDb mono.
#[local] Hint Resolve mono_ret mono_bind mono_get mono_pure mono_fail mono_call
  mono_post mono_for_each : mono.

(** Modifications that only touch a field other than the queue and staging
    list, or grow a ledger. *)
Ltac sstep_field :=
  intros; repeat split; simpl; try set_solver; try (exists []; by rewrite app_nil_r).

Lemma mono_run_task config rc R t : Mono (run_task config rc R t).
Proof.
  destruct t; simpl.
  - unfold run_query_wg_issues. apply mono_bind; [unfold updated_issues; auto with mono|].
    intros issues. apply mono_bind; [|auto with mono].
    destruct (last issues); [apply mono_modify; sstep_field | auto with mono].
  - unfold run_query_decisions_issues. apply mono_bind; [unfold updated_issues; auto with mono|].
    intros issues. apply mono_bind.
    + destruct (last issues); [apply mono_modify; sstep_field | auto with mono].
    + intros _. apply mono_for_each. intros issue. unfold process_decisions_issue.
      apply mono_bind; [auto with mono|]. intros st.
      case_bool_decide; [auto with mono|]. destruct (negb _); [auto with mono|].
      apply mono_bind; [apply mono_modify; sstep_field|]. intros _.
      apply mono_bind; [apply mono_pure|]. auto with mono.
  - unfold run_query_wg_issue_comments. apply mono_bind; [auto with mono|].
    intros comments. apply mono_for_each. intros c. destruct (String.leb _ _); auto with mono.
  - unfold run_process_wg_comment. destruct (resolutions_of body_text0); [auto with mono|].
    apply mono_bind; [auto with mono|]. intros st. case_bool_decide; [auto with mono|].
    apply mono_bind; [apply mono_modify; sstep_field|]. auto with mono.
  - unfold run_query_known_labels. apply mono_bind; [auto with mono|].
    intros res. apply mono_modify; sstep_field.
  - unfold run_ensure_label. apply mono_bind; [auto with mono|]. intros st.
    destruct (known_labels st); [|auto with mono].
    destruct (decisions_repo_id st); [|auto with mono].
    case_bool_decide; [auto with mono|].
    apply mono_bind; [auto with mono|]. intros lid. apply mono_modify; sstep_field.
  - unfold run_query_repo_id. apply mono_bind; [auto with mono|].
    intros [rid|]; [apply mono_modify; sstep_field|auto with mono].
  - unfold run_file_issue. apply mono_bind; [auto with mono|]. intros st.
    destruct (known_labels st); [|auto with mono].
    destruct (decisions_repo_id st); auto with mono.
  - unfold run_remove_bug_label. apply mono_bind; [auto with mono|]. intros st.
    destruct (known_labels st) as [kl|]; [|auto with mono].
    destruct (kl !! "bug"); auto with mono.
  - unfold run_close_issue. auto with mono.
  - unfold run_file_bug. auto with mono.
  - unfold run_file_bug_with_details. auto with mono.
  - unfold run_add_issue_comment. auto with mono.
Qed.

Lemma run_task_keeps_queue config rc R t w w' r :
  run_task config rc R t w = (w', r) -> tasks (w_state w') = tasks (w_state w).
Proof. intros H. apply (mono_run_task config rc R t) in H. apply H. Qed.

Lemma run_task_appends config rc R t w w' r :
  run_task config rc R t w = (w', r) ->
  exists l, posted_tasks (w_state w') = posted_tasks (w_state w) ++ l.
Proof. intros H. apply (mono_run_task config rc R t) in H. apply H. Qed.

Lemma merge_posted_tasks s : tasks (merge_posted s) = posted_tasks s ++ tasks s.
Proof. unfold merge_posted. by destruct (posted_tasks s). Qed.

Lemma merge_posted_posted s : posted_tasks (merge_posted s) = [].
Proof. unfold merge_posted. by destruct (posted_tasks s) eqn:E. Qed.

(** ** C1: a failing step *)

(** The step itself: the failed task is back in front, what it staged
    before failing is still staged, and the error is returned. *)
Lemma iterate_failure config rc R s w' e :
  iterate config rc R (mkWorld s []) = (w', Err e) ->
  exists t rest w1,
    tasks (merge_posted s) = t :: rest /\
    run_task config rc R t (mkWorld (set_tasks rest (merge_posted s)) []) = (w1, Err e) /\
    w_state w' = set_tasks (t :: rest) (w_state w1) /\
    w_calls w' = w_calls w1.
Proof.
  unfold iterate; simpl.
  destruct (tasks (merge_posted s)) as [|t rest] eqn:T; [congruence|].
  destruct (run_task config rc R t _) as [w1 [[]|e']] eqn:E; intros H; [congruence|].
  inversion H; subst. exists t, rest, w1. repeat split; auto.
  simpl. f_equal. symmetry. eapply run_task_keeps_queue in E. simpl in E. by rewrite E.
Qed.

(** C1 (as amended). After a step whose task fails, the failed task is at
    the front of the queue, what it staged before failing is still in the
    staging list and is merged in front of it by the next step, and the
    step returns the error; the driver then writes the snapshot of that
    state and halts, returning the task's error when the write succeeds
    and the write's error otherwise. *)
Theorem step_failure_saved_then_halts config env rc s w' e :
  iterate config rc (env_remote env) (mkWorld s []) = (w', Err e) ->
  (exists t rest staged w1,
     tasks (merge_posted s) = t :: rest /\
     posted_tasks (merge_posted s) = [] /\
     run_task config rc (env_remote env) t (mkWorld (set_tasks rest (merge_posted s)) [])
       = (w1, Err e) /\
     posted_tasks (w_state w1) = staged /\
     tasks (w_state w') = t :: rest /\
     posted_tasks (w_state w') = staged /\
     tasks (merge_posted (w_state w')) = staged ++ t :: rest) /\
  loop_body config env rc s =
    (map EvRemote (w_calls w') ++ [EvSaveState (w_state w')],
     Halt (match env_save env (w_state w') with Ok _ => Err e | Err e' => Err e' end)) /\
  (forall fuel, drive config env (S fuel) rc s =
    (map EvRemote (w_calls w') ++ [EvSaveState (w_state w')],
     Some (match env_save env (w_state w') with Ok _ => Err e | Err e' => Err e' end))).
Proof.
  intros H.
  assert (Hloop : loop_body config env rc s =
    (map EvRemote (w_calls w') ++ [EvSaveState (w_state w')],
     Halt (match env_save env (w_state w') with Ok _ => Err e | Err e' => Err e' end))).
  { unfold loop_body. rewrite H. by destruct (env_save env (w_state w')). }
  split; [|split; [exact Hloop|]].
  - destruct (iterate_failure _ _ _ _ _ _ H) as (t & rest & w1 & T & R & S & C).
    exists t, rest, (posted_tasks (w_state w1)), w1.
    rewrite S. simpl. repeat split; auto using merge_posted_posted.
    unfold merge_posted. simpl. by destruct (posted_tasks (w_state w1)).
  - intros fuel. simpl. rewrite Hloop. reflexivity.
Qed.

(** The step fails on the component of the second issue after it has
    staged the three follow-on tasks of the first one. *)
Lemma step_failure_saved_then_halts_witness :
  iterate ex_config ex_repo_config_bad (batch_remote [ex_issue_fonts; ex_issue_grid])
    (mkWorld ex_state_poll [])
  = (fst (iterate ex_config ex_repo_config_bad (batch_remote [ex_issue_fonts; ex_issue_grid])
            (mkWorld ex_state_poll [])),
     Err (format_err "could not parse component 'CSS Grid'")) /\
  posted_tasks (w_state (fst (iterate ex_config ex_repo_config_bad
     (batch_remote [ex_issue_fonts; ex_issue_grid]) (mkWorld ex_state_poll []))))
  = [FileBugForDecisionsIssueTask "CSS" "Fonts" 7 "MDU6SXNzdWU3";
     RemoveDecisionsIssueBugLabelTask "MDU6SXNzdWU3"; CloseIssueTask "MDU6SXNzdWU3"] /\
  loop_body ex_config (ex_env true (batch_remote [ex_issue_fonts; ex_issue_grid]))
    ex_repo_config_bad ex_state_poll =
  (map EvRemote (w_calls (fst (iterate ex_config ex_repo_config_bad
       (batch_remote [ex_issue_fonts; ex_issue_grid]) (mkWorld ex_state_poll []))))
   ++ [EvSaveState (w_state (fst (iterate ex_config ex_repo_config_bad
       (batch_remote [ex_issue_fonts; ex_issue_grid]) (mkWorld ex_state_poll []))))],
   Halt (Err (format_err "could not parse component 'CSS Grid'"))).
Proof.
  assert (H : iterate ex_config ex_repo_config_bad (batch_remote [ex_issue_fonts; ex_issue_grid])
    (mkWorld ex_state_poll [])
  = (fst (iterate ex_config ex_repo_config_bad (batch_remote [ex_issue_fonts; ex_issue_grid])
            (mkWorld ex_state_poll [])),
     Err (format_err "could not parse component 'CSS Grid'"))) by (vm_compute; reflexivity).
  split; [exact H|]. split; [vm_compute; reflexivity|].
  destruct (step_failure_saved_then_halts ex_config
              (ex_env true (batch_remote [ex_issue_fonts; ex_issue_grid]))
              ex_repo_config_bad ex_state_poll _ _ H) as (_ & L & _).
  exact L.
Defined.

(** C1 as stated fails when the snapshot write fails: the run then halts
    with the write's error, not the task's. *)
Lemma step_failure_save_error_counterexample :
  snd (iterate ex_config ex_repo_config_bad (err_remote net_error)
         (mkWorld (set_tasks [CloseIssueTask "MDU6SXNzdWU3"] (State_new "2019-05-01")) []))
    = Err net_error /\
  snd (loop_body ex_config (ex_env false (err_remote net_error)) ex_repo_config_bad
         (set_tasks [CloseIssueTask "MDU6SXNzdWU3"] (State_new "2019-05-01")))
    = Halt (Err save_error) /\
  save_error <> net_error.
Proof. split; [|split]; [vm_compute; reflexivity | vm_compute; reflexivity | discriminate]. Qed.

(** ** C2: processing a comment is idempotent per URL *)

Ltac unfold_monad :=
  unfold mbind, M_bind, mret, M_ret, get_state, modify_state, post_task, call, fail in *.

Lemma for_each_post {A} (f : A -> Task) (xs : list A) (w : World) :
  for_each (fun x => post_task (f x)) xs w =
  (mkWorld (set_posted_tasks (posted_tasks (w_state w) ++ map f xs) (w_state w)) (w_calls w),
   Ok tt).
Proof.
  revert w. induction xs as [|x xs IH]; intros [s c]; simpl.
  - unfold_monad. rewrite app_nil_r. by destruct s.
  - change (for_each (fun x => post_task (f x)) xs
              (mkWorld (set_posted_tasks (posted_tasks s ++ [f x]) s) c) =
            (mkWorld (set_posted_tasks (posted_tasks s ++ f x :: map f xs) s) c, Ok tt)).
    rewrite IH. simpl. by rewrite <- app_assoc.
Qed.

Lemma count_file_issue_app l1 l2 :
  count_file_issue (l1 ++ l2) = count_file_issue l1 + count_file_issue l2.
Proof. unfold count_file_issue. by rewrite List.filter_app, length_app. Qed.

Lemma count_file_issue_ensure (ls : list IssueLabel) :
  count_file_issue (map (fun label => EnsureLabelTask ("[spec] " +:+ label_name label)
                                                      (label_color label)) ls) = 0.
Proof. induction ls; simpl; auto. Qed.

(** The two outcomes of [ProcessWGCommentTask::run]. *)
Lemma process_wg_comment_cases rc n title ls url body s c w' r :
  run_process_wg_comment rc n title ls url body (mkWorld s c) = (w', r) ->
  r = Ok tt /\
  ((w' = mkWorld s c /\ (resolutions_of body = [] \/ (url ∈ handled_wg_comments s))) \/
   (resolutions_of body <> [] /\ (url ∉ handled_wg_comments s) /\
    w_calls w' = c /\
    handled_wg_comments (w_state w') = {[url]} ∪ handled_wg_comments s /\
    exists l, posted_tasks (w_state w') = posted_tasks s ++ l /\ count_file_issue l = 1)).
Proof.
  unfold run_process_wg_comment.
  destruct (resolutions_of body) as [|r0 rs] eqn:Res.
  - intros H. inversion H; subst. split; auto.
  - unfold mbind, M_bind, mret, M_ret, get_state, modify_state. simpl.
    case_bool_decide as Hin.
    + intros H. inversion H; subst. split; auto.
    + rewrite for_each_post. unfold_monad. simpl. intros H. inversion H; subst. split; [done|].
      right. split; [done|]. split; [done|]. split; [done|]. split; [done|].
      eexists. split; [by rewrite <- app_assoc|].
      rewrite count_file_issue_app, count_file_issue_ensure. reflexivity.
Qed.

(** The ledgers only grow, over every step of the engine. *)
Lemma iterate_ledgers_grow config rc R w w' r :
  iterate config rc R w = (w', r) ->
  handled_wg_comments (w_state w) ⊆ handled_wg_comments (w_state w') /\
  handled_decisions_issues (w_state w) ⊆ handled_decisions_issues (w_state w').
Proof.
  unfold iterate. destruct w as [s c]. simpl.
  assert (Hm : handled_wg_comments (merge_posted s) = handled_wg_comments s /\
               handled_decisions_issues (merge_posted s) = handled_decisions_issues s)
    by (unfold merge_posted; by destruct (posted_tasks s)).
  destruct Hm as [Hm1 Hm2].
  destruct (tasks (merge_posted s)) as [|t rest].
  - intros H. inversion H; subst. simpl. by rewrite Hm1, Hm2.
  - destruct (run_task config rc R t _) as [w1 [[]|e]] eqn:E;
      apply mono_run_task in E; destruct E as [(_ & _ & E1 & E2) _]; simpl in *;
      intros H; inversion H; subst; simpl; rewrite <- Hm1, <- Hm2; auto.
Qed.

(** C2. Two executions of [ProcessWGCommentTask] with the same [url] (the
    second on any later state, whose ledger contains the first one's,
    as [iterate_ledgers_grow] guarantees) stage at most one [FileIssueTask]
    together; an execution with resolutions leaves the URL in the ledger,
    and an execution whose URL is in the ledger changes nothing. *)
Theorem process_comment_at_most_one_file_issue config rc R R'
    n1 title1 ls1 body1 n2 title2 ls2 body2 url s c w1 r1 s2 c2 w2 r2 :
  run_task config rc R (ProcessWGCommentTask n1 title1 ls1 url body1) (mkWorld s c) = (w1, r1) ->
  handled_wg_comments (w_state w1) ⊆ handled_wg_comments s2 ->
  run_task config rc R' (ProcessWGCommentTask n2 title2 ls2 url body2) (mkWorld s2 c2) = (w2, r2) ->
  (resolutions_of body1 <> [] -> url ∈ handled_wg_comments (w_state w1)) /\
  (url ∈ handled_wg_comments s2 -> w2 = mkWorld s2 c2 /\ r2 = Ok tt) /\
  exists l1 l2,
    posted_tasks (w_state w1) = posted_tasks s ++ l1 /\
    posted_tasks (w_state w2) = posted_tasks s2 ++ l2 /\
    count_file_issue (l1 ++ l2) <= 1.
Proof.
  simpl. intros H1 Hsub H2.
  apply process_wg_comment_cases in H1 as [-> C1].
  apply process_wg_comment_cases in H2 as [-> C2].
  destruct C1 as [[-> Hno1] | (Hres1 & Hnin1 & _ & Hh1 & l1 & P1 & K1)].
  - split.
    { simpl. intros Hres. destruct Hno1 as [?|?]; [congruence|done]. }
    destruct C2 as [[-> Hno2] | (Hres2 & Hnin2 & _ & Hh2 & l2 & P2 & K2)].
    + split; [done|]. exists [], []. simpl. rewrite !app_nil_r. auto.
    + split; [done|]. exists [], l2. simpl. rewrite app_nil_r. rewrite K2. auto.
  - assert (Hin : url ∈ handled_wg_comments s2) by (rewrite Hh1 in Hsub; set_solver).
    split; [rewrite Hh1; set_solver|].
    destruct C2 as [[-> Hno2] | (Hres2 & Hnin2 & _)]; [|done].
    split; [done|]. exists l1, []. rewrite P1, app_nil_r. simpl.
    rewrite app_nil_r, K1. auto.
Qed.

Lemma process_comment_at_most_one_file_issue_witness :
  (resolutions_of ex_body <> [] -> ex_url ∈ handled_wg_comments (w_state (fst ex_comment_run1))) /\
  (ex_url ∈ handled_wg_comments (w_state (fst ex_comment_run1)) ->
     fst ex_comment_run2 = mkWorld (w_state (fst ex_comment_run1)) (w_calls (fst ex_comment_run1))
     /\ snd ex_comment_run2 = Ok tt) /\
  exists l1 l2,
    posted_tasks (w_state (fst ex_comment_run1)) = posted_tasks (State_new "2019-05-01") ++ l1 /\
    posted_tasks (w_state (fst ex_comment_run2))
      = posted_tasks (w_state (fst ex_comment_run1)) ++ l2 /\
    count_file_issue (l1 ++ l2) <= 1.
Proof.
  apply (process_comment_at_most_one_file_issue ex_config ex_repo_config_labels
           (err_remote net_error) (err_remote net_error) 42 "Encoding" ex_wg_labels ex_body
           42 "Encoding" ex_wg_labels ex_body ex_url (State_new "2019-05-01") []
           (fst ex_comment_run1) (snd ex_comment_run1)
           (w_state (fst ex_comment_run1)) (w_calls (fst ex_comment_run1))
           (fst ex_comment_run2) (snd ex_comment_run2)).
  - vm_compute. reflexivity.
  - reflexivity.
  - vm_compute. reflexivity.
Defined.

(** ** C3: the decision-issue ledger *)

Section StagesLemmas.

Variable P : Task -> Prop.

Lemma stages_ret {A} (a : A) : Stages P (mret a).
Proof. intros w w' r H. inversion H; subst. exists []. by rewrite app_nil_r. Qed.

Lemma stages_pure {A} (r0 : result A) : Stages P (fun w => (w, r0)).
Proof. intros w w' r H. inversion H; subst. exists []. by rewrite app_nil_r. Qed.

Lemma stages_get : Stages P get_state.
Proof. intros w w' r H. inversion H; subst. exists []. by rewrite app_nil_r. Qed.

Lemma stages_fail {A} (e : Error) : Stages P (fail (A:=A) e).
Proof. intros w w' r H. inversion H; subst. exists []. by rewrite app_nil_r. Qed.

Lemma stages_call {A} (c : Call) (r0 : result A) : Stages P (call c r0).
Proof. intros w w' r H. inversion H; subst. exists []. by rewrite app_nil_r. Qed.

Lemma stages_modify (f : State -> State) :
  (forall s, posted_tasks (f s) = posted_tasks s) -> Stages P (modify_state f).
Proof. intros Hf w w' r H. inversion H; subst. exists []. simpl. by rewrite Hf, app_nil_r. Qed.

Lemma stages_post t : P t -> Stages P (post_task t).
Proof. intros Ht w w' r H. inversion H; subst. exists [t]. split; auto. Qed.

Lemma stages_bind {A B} (m : M A) (k : A -> M B) :
  Stages P m -> (forall a, Stages P (k a)) -> Stages P (m ≫= k).
Proof.
  intros Hm Hk w w' r. unfold mbind, M_bind.
  destruct (m w) as [w1 [a|e]] eqn:E; intros H.
  - destruct (Hm _ _ _ E) as [l1 [P1 F1]]. destruct (Hk a _ _ _ H) as [l2 [P2 F2]].
    exists (l1 ++ l2). rewrite P2, P1, app_assoc. split; [done|]. by apply Forall_app.
  - inversion H; subst. eapply Hm; eauto.
Qed.

Lemma stages_for_each {A} (f : A -> M unit) (xs : list A) :
  (forall x, Stages P (f x)) -> Stages P (for_each f xs).
Proof.
  intros Hf. induction xs; simpl; [apply stages_ret|]. apply stages_bind; auto.
Qed.

End StagesLemmas.

Create HintDb stages.
#[local] Hint Resolve stages_ret stages_pure stages_get stages_fail stages_call stages_post
  stages_bind stages_for_each : stages.

Ltac stages_modify_field := apply stages_modify; intros; reflexivity.

(** Only [QueryDecisionsIssuesTask] stages [FileBugForDecisionsIssueTask]s. *)
Lemma stages_no_file_bug config rc R t :
  match t with QueryDecisionsIssuesTask _ => False | _ => True end ->
  Stages not_file_bug (run_task config rc R t).
Proof.
  intros Ht. destruct t; simpl in *; try contradiction.
  - unfold run_query_wg_issues, updated_issues.
    apply stages_bind; [auto with stages|]. intros issues.
    apply stages_bind; [|intros; apply stages_for_each; intros; apply stages_post; exact I].
    destruct (last issues); [stages_modify_field|auto with stages].
  - unfold run_query_wg_issue_comments. apply stages_bind; [auto with stages|].
    intros cs. apply stages_for_each. intros cm. destruct (String.leb _ _);
      [apply stages_post; exact I|auto with stages].
  - unfold run_process_wg_comment. destruct (resolutions_of body_text0); [auto with stages|].
    apply stages_bind; [auto with stages|]. intros st. case_bool_decide; [auto with stages|].
    apply stages_bind; [stages_modify_field|]. intros _.
    apply stages_bind; [apply stages_for_each; intros; apply stages_post; exact I|].
    intros _. apply stages_post. exact I.
  - unfold run_query_known_labels. apply stages_bind; [auto with stages|].
    intros res. stages_modify_field.
  - unfold run_ensure_label. apply stages_bind; [auto with stages|]. intros st.
    destruct (known_labels st); [|apply stages_bind; intros; apply stages_post; exact I].
    destruct (decisions_repo_id st); [|apply stages_bind; intros; apply stages_post; exact I].
    case_bool_decide; [auto with stages|].
    apply stages_bind; [auto with stages|]. intros lid. stages_modify_field.
  - unfold run_query_repo_id. apply stages_bind; [auto with stages|].
    intros [rid|]; [stages_modify_field|auto with stages].
  - unfold run_file_issue. apply stages_bind; [auto with stages|]. intros st.
    destruct (known_labels st); [|apply stages_bind; intros; apply stages_post; exact I].
    destruct (decisions_repo_id st); [|apply stages_bind; intros; apply stages_post; exact I].
    auto with stages.
  - unfold run_remove_bug_label. apply stages_bind; [auto with stages|]. intros st.
    destruct (known_labels st) as [kl|]; [|apply stages_bind; intros; apply stages_post; exact I].
    destruct (kl !! "bug"); auto with stages.
  - unfold run_close_issue. auto with stages.
  - unfold run_file_bug. apply stages_bind; [auto with stages|]. intros. apply stages_post. exact I.
  - unfold run_file_bug_with_details. apply stages_bind; [auto with stages|].
    intros. apply stages_post. exact I.
  - unfold run_add_issue_comment. auto with stages.
Qed.

Lemma count_file_bug_app n l1 l2 :
  count_file_bug n (l1 ++ l2) = count_file_bug n l1 + count_file_bug n l2.
Proof. unfold count_file_bug. by rewrite List.filter_app, length_app. Qed.

Lemma count_file_bug_none n l : Forall not_file_bug l -> count_file_bug n l = 0.
Proof.
  induction 1 as [|t l Ht _ IH]; [done|].
  unfold count_file_bug in *. destruct t; simpl in *; try done.
Qed.

Lemma count_file_bug_follow_ups n i p c :
  count_file_bug n (decisions_follow_ups i p c) = if Z.eqb (issue_number i) n then 1 else 0.
Proof. unfold count_file_bug. simpl. by destruct (Z.eqb _ _). Qed.

(** One iteration of the loop of [QueryDecisionsIssuesTask::run]. *)
Lemma process_decisions_issue_spec rc i w w' r :
  process_decisions_issue rc i w = (w', r) ->
  handled_decisions_issues (w_state w) ⊆ handled_decisions_issues (w_state w') /\
  (posted_tasks (w_state w') = posted_tasks (w_state w) \/
   ((issue_number i ∉ handled_decisions_issues (w_state w)) /\
    issue_number i ∈ handled_decisions_issues (w_state w') /\
    exists p c, posted_tasks (w_state w') =
                posted_tasks (w_state w) ++ decisions_follow_ups i p c)).
Proof.
  destruct w as [s cl]. unfold process_decisions_issue. unfold_monad. simpl.
  case_bool_decide as Hin.
  - intros H. inversion H; subst. simpl. auto.
  - destruct (negb _).
    + intros H. inversion H; subst. simpl. auto.
    + destruct (product_component rc (issue_labels i)) as [[p c]|e]; simpl;
        intros H; inversion H; subst; simpl.
      * split; [set_solver|]. right. split; [done|]. split; [set_solver|].
        exists p, c. by rewrite <- !app_assoc.
      * split; [set_solver|]. auto.
Qed.

Lemma mono_process_decisions_issue rc i : Mono (process_decisions_issue rc i).
Proof.
  unfold process_decisions_issue. apply mono_bind; [auto with mono|]. intros st.
  case_bool_decide; [auto with mono|]. destruct (negb _); [auto with mono|].
  apply mono_bind; [apply mono_modify; sstep_field|]. auto with mono.
Qed.

(** The loop over the polled batch. *)
Lemma for_each_decisions_issues_spec rc n issues w w' r :
  for_each (process_decisions_issue rc) issues w = (w', r) ->
  exists l,
    posted_tasks (w_state w') = posted_tasks (w_state w) ++ l /\
    (forall t, t ∈ l -> exists i, i ∈ issues /\
        (issue_number i ∉ handled_decisions_issues (w_state w)) /\ staged_for i t) /\
    count_file_bug n l <= (if bool_decide (n ∈ handled_decisions_issues (w_state w)) then 0 else 1) /\
    (0 < count_file_bug n l -> n ∈ handled_decisions_issues (w_state w')).
Proof.
  revert w w' r. induction issues as [|i issues IH]; intros w w' r; simpl.
  - intros H. inversion H; subst. exists []. rewrite app_nil_r.
    split; [done|]. split; [intros t Ht; inversion Ht|]. split; [|unfold count_file_bug; simpl; intros; lia].
    case_bool_decide; unfold count_file_bug; simpl; lia.
  - unfold mbind at 1, M_bind at 1.
    destruct (process_decisions_issue rc i w) as [w1 r1] eqn:E1.
    destruct (process_decisions_issue_spec _ _ _ _ _ E1) as [Hsub1 Hcase].
    assert (Hl1 : exists l1, posted_tasks (w_state w1) = posted_tasks (w_state w) ++ l1 /\
      (forall t, t ∈ l1 -> (issue_number i ∉ handled_decisions_issues (w_state w)) /\ staged_for i t) /\
      count_file_bug n l1 <= (if bool_decide (n ∈ handled_decisions_issues (w_state w)) then 0 else 1) /\
      (0 < count_file_bug n l1 -> n ∈ handled_decisions_issues (w_state w1))).
    { destruct Hcase as [Hp | (Hnin & Hin & p & c & Hp)].
      - exists []. rewrite app_nil_r. split; [done|]. split; [intros t Ht; inversion Ht|].
        split; [|unfold count_file_bug; simpl; intros; lia]. case_bool_decide; unfold count_file_bug; simpl; lia.
      - exists (decisions_follow_ups i p c). split; [done|]. split.
        + intros t Ht. split; [done|]. unfold staged_for.
          unfold decisions_follow_ups in Ht. rewrite !elem_of_cons, elem_of_nil in Ht.
          destruct Ht as [->|[->|[->|[]]]]; eauto.
        + rewrite count_file_bug_follow_ups. destruct (Z.eqb_spec (issue_number i) n) as [Heq|Hne].
          * rewrite bool_decide_eq_false_2 by (rewrite <- Heq; done).
            split; [lia|intros _; rewrite <- Heq; done].
          * split; [case_bool_decide; lia|lia]. }
    destruct Hl1 as (l1 & P1 & S1 & K1 & H1).
    destruct r1 as [[]|e].
    + intros H. destruct (IH _ _ _ H) as (l2 & P2 & S2 & K2 & H2).
      assert (Hsub2 : handled_decisions_issues (w_state w1) ⊆ handled_decisions_issues (w_state w')).
      { apply (mono_for_each _ issues (mono_process_decisions_issue rc)) in H. apply H. }
      exists (l1 ++ l2). rewrite P2, P1, app_assoc. split; [done|]. split.
      * intros t Ht. apply elem_of_app in Ht as [Ht|Ht].
        -- destruct (S1 t Ht) as [Hn Hs]. exists i. split; [apply elem_of_cons; by left|]. auto.
        -- destruct (S2 t Ht) as (i' & Hi' & Hn & Hs). exists i'.
           split; [apply elem_of_cons; by right|].
           split; [intros Hc; apply Hn, Hsub1, Hc|done].
      * rewrite count_file_bug_app. split.
        -- destruct (decide (n ∈ handled_decisions_issues (w_state w))) as [Hn|Hn].
           ++ rewrite (bool_decide_eq_true_2 _ Hn) in K1 |- *.
              rewrite (bool_decide_eq_true_2 _ (Hsub1 _ Hn)) in K2. lia.
           ++ rewrite (bool_decide_eq_false_2 _ Hn) in K1 |- *.
              destruct (decide (n ∈ handled_decisions_issues (w_state w1))) as [Hn1|Hn1].
              ** rewrite (bool_decide_eq_true_2 _ Hn1) in K2. lia.
              ** rewrite (bool_decide_eq_false_2 _ Hn1) in K2.
                 destruct (count_file_bug n l1) eqn:C1; [lia|].
                 exfalso. apply Hn1, H1. lia.
        -- intros Hpos. destruct (count_file_bug n l2) eqn:C2.
           ++ apply Hsub2, H1. lia.
           ++ apply H2. lia.
    + intros H. inversion H; subst. exists l1. split; [done|]. split.
      * intros t Ht. destruct (S1 t Ht). exists i. split; [apply elem_of_cons; by left|auto].
      * auto.
Qed.

Lemma query_decisions_issues_spec config rc R since n w w' r :
  run_task config rc R (QueryDecisionsIssuesTask since) w = (w', r) ->
  exists l,
    posted_tasks (w_state w') = posted_tasks (w_state w) ++ l /\
    (forall t, t ∈ l -> exists i, i ∈ decisions_batch config R since /\
        (issue_number i ∉ handled_decisions_issues (w_state w)) /\ staged_for i t) /\
    count_file_bug n l <= (if bool_decide (n ∈ handled_decisions_issues (w_state w)) then 0 else 1) /\
    (0 < count_file_bug n l -> n ∈ handled_decisions_issues (w_state w')).
Proof.
  destruct w as [s c]. simpl. unfold run_query_decisions_issues, updated_issues, decisions_batch.
  unfold mbind, M_bind, call. simpl.
  destruct (r_updated_issues R _ _ since) as [batch|e].
  - destruct (last batch) as [i|]; unfold modify_state, mret, M_ret; simpl;
      intros H; apply for_each_decisions_issues_spec with (n := n) in H; exact H.
  - intros H. inversion H; subst. exists []. simpl. rewrite app_nil_r.
    split; [done|]. split; [intros t Ht; inversion Ht|].
    split; [case_bool_decide; unfold count_file_bug; simpl; lia|unfold count_file_bug; simpl; intros; lia].
Qed.

(** The same bound for every task. *)
Lemma run_task_file_bug_bound config rc R t n w w' r :
  run_task config rc R t w = (w', r) ->
  exists l,
    posted_tasks (w_state w') = posted_tasks (w_state w) ++ l /\
    count_file_bug n l <= (if bool_decide (n ∈ handled_decisions_issues (w_state w)) then 0 else 1) /\
    (0 < count_file_bug n l -> n ∈ handled_decisions_issues (w_state w')).
Proof.
  intros H. destruct t as [since|since| | | | | | | | | | |];
    try (match type of H with run_task _ _ _ ?t _ = _ =>
           destruct (stages_no_file_bug config rc R t I _ _ _ H) as [l [Hp Hf]] end;
         exists l; rewrite (count_file_bug_none n l Hf);
         split; [done|]; split; [case_bool_decide; lia|intros; lia]).
  destruct (query_decisions_issues_spec _ _ _ _ n _ _ _ H) as (l & Hp & _ & K & Hn).
  eauto.
Qed.

Lemma iterate_file_bug_bound config rc R n w :
  exists l,
    posted_tasks (w_state (fst (iterate config rc R w))) = l /\
    count_file_bug n l <= (if bool_decide (n ∈ handled_decisions_issues (w_state w)) then 0 else 1) /\
    (0 < count_file_bug n l ->
       n ∈ handled_decisions_issues (w_state (fst (iterate config rc R w)))).
Proof.
  destruct w as [s c]. unfold iterate. simpl.
  assert (Hm : handled_decisions_issues (merge_posted s) = handled_decisions_issues s)
    by (unfold merge_posted; by destruct (posted_tasks s)).
  destruct (tasks (merge_posted s)) as [|t rest].
  - simpl. exists []. rewrite merge_posted_posted.
    split; [done|]. split; [case_bool_decide; unfold count_file_bug; simpl; lia|].
    unfold count_file_bug; simpl; intros; lia.
  - destruct (run_task config rc R t _) as [w1 r1] eqn:E.
    destruct (run_task_file_bug_bound _ _ _ _ n _ _ _ E) as (l & Hp & K & Hn).
    simpl in Hp, K. rewrite merge_posted_posted in Hp. simpl in Hp. rewrite Hm in K.
    exists l. destruct r1 as [[]|e]; simpl; auto.
Qed.

Lemma run_steps_file_bug_bound config rc Rs n w :
  count_file_bug n (snd (run_steps config rc Rs w)) <=
  (if bool_decide (n ∈ handled_decisions_issues (w_state w)) then 0 else 1).
Proof.
  revert w. induction Rs as [|R Rs IH]; intros w; simpl.
  - case_bool_decide; unfold count_file_bug; simpl; lia.
  - destruct (iterate_file_bug_bound config rc R n w) as (l & Hp & K & Hn).
    destruct (iterate config rc R w) as [w1 r1] eqn:E. simpl in *.
    pose proof (iterate_ledgers_grow _ _ _ _ _ _ E) as [_ Hsub].
    specialize (IH w1).
    destruct (run_steps config rc Rs w1) as [w2 staged]. simpl in *.
    rewrite Hp, count_file_bug_app.
    destruct (decide (n ∈ handled_decisions_issues (w_state w))) as [H0|H0].
    + rewrite (bool_decide_eq_true_2 _ H0) in K |- *.
      rewrite (bool_decide_eq_true_2 _ (Hsub _ H0)) in IH. lia.
    + rewrite (bool_decide_eq_false_2 _ H0) in K |- *.
      destruct (decide (n ∈ handled_decisions_issues (w_state w1))) as [H1|H1].
      * rewrite (bool_decide_eq_true_2 _ H1) in IH. lia.
      * rewrite (bool_decide_eq_false_2 _ H1) in IH.
        destruct (count_file_bug n l) eqn:C; [lia|].
        exfalso. apply H1, Hn. lia.
Qed.

(** C3. Once a decision-issue number [n] is in the ledger, a decisions
    poll stages nothing for it: no [FileBugForDecisionsIssueTask] with that
    number, and every staged task is a follow-on of an issue of the batch
    whose number was not in the ledger (so not [n]). No task removes a
    number from the ledger, and over any run (any sequence of steps, with
    any answers of the remote side) at most one
    [FileBugForDecisionsIssueTask] for [n] is ever staged, none if [n] was
    already in the ledger at the start. *)
Theorem decisions_ledger_no_duplicate_follow_ups config rc R since n s c w' r :
  n ∈ handled_decisions_issues s ->
  run_task config rc R (QueryDecisionsIssuesTask since) (mkWorld s c) = (w', r) ->
  (exists l,
     posted_tasks (w_state w') = posted_tasks s ++ l /\
     count_file_bug n l = 0 /\
     (forall t, t ∈ l -> exists i, i ∈ decisions_batch config R since /\
        issue_number i <> n /\ (issue_number i ∉ handled_decisions_issues s) /\ staged_for i t)) /\
  (forall config' rc' R' t w1 w1' r1,
     run_task config' rc' R' t w1 = (w1', r1) ->
     handled_decisions_issues (w_state w1) ⊆ handled_decisions_issues (w_state w1')) /\
  (forall Rs w0,
     count_file_bug n (snd (run_steps config rc Rs w0)) <=
     (if bool_decide (n ∈ handled_decisions_issues (w_state w0)) then 0 else 1)).
Proof.
  intros Hn H. split; [|split].
  - destruct (query_decisions_issues_spec _ _ _ _ n _ _ _ H) as (l & Hp & Hs & K & _).
    simpl in *. rewrite (bool_decide_eq_true_2 _ Hn) in K.
    exists l. split; [done|]. split; [lia|].
    intros t Ht. destruct (Hs t Ht) as (i & Hi & Hni & Hst). exists i.
    split; [done|]. split; [intros Heq; rewrite Heq in Hni; contradiction|]. auto.
  - intros config' rc' R' t w1 w1' r1 E. apply mono_run_task in E. apply E.
  - intros Rs w0. apply run_steps_file_bug_bound.
Qed.

Lemma decisions_ledger_no_duplicate_follow_ups_witness :
  7%Z ∈ handled_decisions_issues ex_state_handled /\
  posted_tasks (w_state (fst ex_qdi_run)) =
    [FileBugForDecisionsIssueTask "Invalid Bugs" "General" 8 "MDU6SXNzdWU4";
     RemoveDecisionsIssueBugLabelTask "MDU6SXNzdWU4"; CloseIssueTask "MDU6SXNzdWU4"] /\
  (exists l,
     posted_tasks (w_state (fst ex_qdi_run)) = posted_tasks ex_state_handled ++ l /\
     count_file_bug 7 l = 0 /\
     (forall t, t ∈ l -> exists i,
        i ∈ decisions_batch ex_config (batch_remote [ex_issue_fonts; ex_issue_grid])
              "2019-01-01T00:00:00Z" /\
        issue_number i <> 7%Z /\ (issue_number i ∉ handled_decisions_issues ex_state_handled) /\
        staged_for i t)).
Proof.
  assert (Hn : 7%Z ∈ handled_decisions_issues ex_state_handled) by (simpl; set_solver).
  split; [exact Hn|]. split; [vm_compute; reflexivity|].
  refine (proj1 (decisions_ledger_no_duplicate_follow_ups ex_config ex_repo_config_fonts
    (batch_remote [ex_issue_fonts; ex_issue_grid]) "2019-01-01T00:00:00Z" 7 ex_state_handled []
    (fst ex_qdi_run) (snd ex_qdi_run) Hn _)).
  vm_compute. reflexivity.
Defined.

(** ** C6: EnsureLabelTask *)

(** C6. One execution of [EnsureLabelTask { name, color }] from state [s]
    with remote-call log [c]: without a label cache it stages the labels
    loader and then a copy of itself, succeeds, and makes no remote call;
    with a cache but no decisions repository id it stages the id loader and
    then a copy of itself, succeeds, and makes no remote call; with both and
    [name] already a key of the cache it changes nothing and succeeds;
    otherwise it makes exactly one remote call, [create_label], and on its
    success inserts [name] with the returned id into the cache (on its
    failure it returns that error and changes no state). *)
Theorem ensure_label_cases config rc R name color s c :
  run_task config rc R (EnsureLabelTask name color) (mkWorld s c) =
  match known_labels s with
  | None =>
      (mkWorld (set_posted_tasks
                  (posted_tasks s ++ [QueryDecisionsKnownLabelsTask; EnsureLabelTask name color]) s) c,
       Ok tt)
  | Some kl =>
      match decisions_repo_id s with
      | None =>
          (mkWorld (set_posted_tasks
                      (posted_tasks s ++ [QueryDecisionsRepoID; EnsureLabelTask name color]) s) c,
           Ok tt)
      | Some rid =>
          match kl !! name with
          | Some _ => (mkWorld s c, Ok tt)
          | None =>
              match r_create_label R rid name color with
              | Ok label_id =>
                  (mkWorld (set_known_labels (Some (<[name := label_id]> kl)) s)
                           (c ++ [CCreateLabel rid name color]), Ok tt)
              | Err e => (mkWorld s (c ++ [CCreateLabel rid name color]), Err e)
              end
          end
      end
  end.
Proof.
  destruct s as [tk pt hw hd [kl|] [rid|] lw ld]; simpl;
    unfold run_ensure_label, post_task; unfold_monad; simpl; try reflexivity.
  1: destruct (kl !! name) eqn:E; simpl; [reflexivity|];
     destruct (r_create_label R rid name color); reflexivity.
  all: rewrite <- app_assoc; reflexivity.
Qed.

(** ** C7: product and component of a decision issue *)

(** C7. When the loop of [QueryDecisionsIssuesTask::run] processes a
    decision issue [i] that is not yet in the ledger and carries the "bug"
    label, it records [i] in the ledger without any remote call and resolves
    the product and component as follows: the ["[spec] <id>"] labels are
    looked up in the component map after stripping the trailing digits and
    hyphens of [<id>] ([spec_components]); exactly one match is split at
    " :: "; otherwise the map's "default" entry is split if present;
    otherwise ("Invalid Bugs", "General") is used. When the split
    succeeds the three follow-on tasks are staged with that product and
    component (FileBug first); when it fails the error is returned and
    nothing is staged. For the issue labeled ["bug", "[spec] widget-12"]
    and the map {"widget": "Widgets :: Core"}, a decisions poll returning it
    stages a FileBug task with product "Widgets" and component "Core". *)
Theorem decisions_issue_component rc i s c w' r :
  process_decisions_issue rc i (mkWorld s c) = (w', r) ->
  (issue_number i ∉ handled_decisions_issues s) ->
  has_bug_label (issue_labels i) = true ->
  (w_calls w' = c /\
   handled_decisions_issues (w_state w') = {[issue_number i]} ∪ handled_decisions_issues s /\
   product_component rc (issue_labels i) =
     match spec_components rc (issue_labels i) with
     | [m] => parse_component m
     | _ =>
         match components rc with
         | Some cs =>
             match cs !! "default" with
             | Some d => parse_component d
             | None => Ok ("Invalid Bugs", "General")
             end
         | None => Ok ("Invalid Bugs", "General")
         end
     end /\
   match product_component rc (issue_labels i) with
   | Ok (p, comp) =>
       r = Ok tt /\ posted_tasks (w_state w') = posted_tasks s ++ decisions_follow_ups i p comp
   | Err e => r = Err e /\ posted_tasks (w_state w') = posted_tasks s
   end) /\
  spec_components ex_repo_config_widget (issue_labels ex_issue_widget) = ["Widgets :: Core"] /\
  posted_tasks (w_state (fst (run_task ex_config ex_repo_config_widget
                                (batch_remote [ex_issue_widget])
                                (QueryDecisionsIssuesTask "2019-01-01T00:00:00Z")
                                (mkWorld (State_new "2019-05-01") [])))) =
    [FileBugForDecisionsIssueTask "Widgets" "Core" 5 "MDU6SXNzdWU1";
     RemoveDecisionsIssueBugLabelTask "MDU6SXNzdWU1"; CloseIssueTask "MDU6SXNzdWU1"].
Proof.
  intros H Hn Hb. split; [|split; vm_compute; reflexivity].
  unfold process_decisions_issue in H. unfold_monad. simpl in H.
  rewrite (bool_decide_eq_false_2 _ Hn), Hb in H. simpl in H.
  assert (Hpc : product_component rc (issue_labels i) =
     match spec_components rc (issue_labels i) with
     | [m] => parse_component m
     | _ =>
         match components rc with
         | Some cs =>
             match cs !! "default" with
             | Some d => parse_component d
             | None => Ok ("Invalid Bugs", "General")
             end
         | None => Ok ("Invalid Bugs", "General")
         end
     end).
  { unfold product_component, choose_component.
    destruct (spec_components rc (issue_labels i)) as [|m [|m' ms]]; simpl;
      try reflexivity;
      destruct (components rc) as [cs|]; simpl; try reflexivity;
      destruct (cs !! "default"); reflexivity. }
  destruct (product_component rc (issue_labels i)) as [[p comp]|e] eqn:E;
    simpl in H; inversion H; subst; simpl.
  - split; [done|]. split; [done|]. split; [done|].
    split; [done|]. unfold decisions_follow_ups. by rewrite <- !app_assoc.
  - repeat split; done.
Qed.

Lemma decisions_issue_component_witness :
  (7%Z ∉ handled_decisions_issues ex_state_poll) /\
  has_bug_label (issue_labels ex_issue_fonts) = true /\
  posted_tasks (w_state (fst (process_decisions_issue ex_repo_config_bad ex_issue_fonts
                                 (mkWorld ex_state_poll [])))) =
    [FileBugForDecisionsIssueTask "CSS" "Fonts" 7 "MDU6SXNzdWU3";
     RemoveDecisionsIssueBugLabelTask "MDU6SXNzdWU3"; CloseIssueTask "MDU6SXNzdWU3"].
Proof.
  assert (Hn : 7%Z ∉ handled_decisions_issues ex_state_poll) by (simpl; set_solver).
  assert (Hb : has_bug_label (issue_labels ex_issue_fonts) = true) by reflexivity.
  split; [exact Hn|]. split; [exact Hb|].
  pose proof (decisions_issue_component ex_repo_config_bad ex_issue_fonts ex_state_poll []
    (fst (process_decisions_issue ex_repo_config_bad ex_issue_fonts (mkWorld ex_state_poll [])))
    (snd (process_decisions_issue ex_repo_config_bad ex_issue_fonts (mkWorld ex_state_poll [])))
    ltac:(vm_compute; reflexivity) Hn Hb) as [(_ & _ & _ & K) _].
  revert K. vm_compute. intros [_ K]. exact K.
Defined.

(** ** C8: resolutions of a comment and the rendered decision-issue body *)

Lemma contains_sub_prefix n h : String.prefix n h = true -> contains_sub n h = true.
Proof. destruct h; simpl; intros ->; reflexivity. Qed.

Lemma contains_sub_cons n a h : contains_sub n h = true -> contains_sub n (String a h) = true.
Proof. intros H. simpl. rewrite H. apply orb_true_r. Qed.

Lemma contains_sub_app_l n a b : contains_sub n b = true -> contains_sub n (a +:+ b) = true.
Proof. intros H. induction a as [|x a IH]; simpl; [exact H|]. rewrite IH. apply orb_true_r. Qed.

Ltac find_sub :=
  repeat first [ apply contains_sub_prefix; reflexivity
               | apply contains_sub_cons
               | apply contains_sub_app_l ].

(** C8 (amended). Processing the comment body
    "Some text\nRESOLVED: Use UTF-8\nRESOLVED: Reject nulls\n" on issue #42
    "Encoding" stages, last, a [FileIssueTask] whose resolutions are
    ["Use UTF-8"; "Reject nulls"]. Whatever the configuration, once the
    label cache and the decisions repository id are known, that task makes
    one [create_issue] call whose body has the lines "**Encoding**",
    "* RESOLVED: Use UTF\-8" and "* RESOLVED: Reject nulls": the resolution
    text goes through [escape_markdown], which escapes the hyphen. *)
Theorem decision_body_escaped :
  (exists ls, last (posted_tasks (w_state (fst ex_comment_run1))) =
              Some (FileIssueTask 42 "Encoding" ls ex_url ["Use UTF-8"; "Reject nulls"])) /\
  forall config rc R ls s c kl rid,
    known_labels s = Some kl -> decisions_repo_id s = Some rid ->
    let body := decision_issue_body config 42 "Encoding" ex_url ["Use UTF-8"; "Reject nulls"] in
    fst (run_task config rc R (FileIssueTask 42 "Encoding" ls ex_url ["Use UTF-8"; "Reject nulls"])
                  (mkWorld s c)) =
      mkWorld s (c ++ [CCreateIssue rid "Encoding" body (omap (fun n => kl !! n) ls)]) /\
    contains_sub (nl +:+ "**Encoding**" +:+ nl) body = true /\
    contains_sub (nl +:+ "* RESOLVED: Use UTF\-8" +:+ nl) body = true /\
    contains_sub (nl +:+ "* RESOLVED: Reject nulls" +:+ nl) body = true.
Proof.
  split.
  - eexists. vm_compute. reflexivity.
  - intros config rc R ls s c kl rid Hk Hr body.
    split.
    + simpl. unfold run_file_issue. unfold_monad. simpl. rewrite Hk, Hr.
      destruct (r_create_issue _ _ _ _ _); reflexivity.
    + unfold body, decision_issue_body. cbn.
      split; [find_sub|]. split; find_sub.
Qed.

Lemma decision_body_escaped_witness :
  let s := set_decisions_repo_id (Some "R_kgDOrepo")
             (set_known_labels (Some (<["[spec] css-fonts-4" := "LA_fonts"]> ∅)) ex_state_poll) in
  let body := decision_issue_body ex_config 42 "Encoding" ex_url ["Use UTF-8"; "Reject nulls"] in
  fst (run_task ex_config ex_repo_config_labels (err_remote net_error)
         (FileIssueTask 42 "Encoding" ["[spec] css-fonts-4"] ex_url ["Use UTF-8"; "Reject nulls"])
         (mkWorld s [])) =
    mkWorld s [CCreateIssue "R_kgDOrepo" "Encoding" body ["LA_fonts"]] /\
  contains_sub (nl +:+ "* RESOLVED: Use UTF\-8" +:+ nl) body = true.
Proof.
  intros s body.
  destruct decision_body_escaped as [_ H].
  destruct (H ex_config ex_repo_config_labels (err_remote net_error) ["[spec] css-fonts-4"] s []
              (<["[spec] css-fonts-4" := "LA_fonts"]> ∅) "R_kgDOrepo" eq_refl eq_refl)
    as (E & _ & K & _).
  split; [exact E|exact K].
Defined.

(** The line "* RESOLVED: Use UTF-8" of the claim does not occur in the
    body rendered for the task staged from that comment. *)
Lemma decision_body_escaped_counterexample :
  last (posted_tasks (w_state (fst ex_comment_run1))) =
    Some (FileIssueTask 42 "Encoding" ["[spec] css-fonts-4"] ex_url ["Use UTF-8"; "Reject nulls"]) /\
  contains_sub "* RESOLVED: Use UTF-8"
    (decision_issue_body ex_config 42 "Encoding" ex_url ["Use UTF-8"; "Reject nulls"]) = false.
Proof. split; vm_compute; reflexivity. Qed.

(** ** C9: the process exit *)

(** C9 (amended). [main] prints exactly one line when [run()] fails (the
    timestamp, "error: ", the message, and ": " with the cause when there
    is one) and nothing when it succeeds; it returns [()] in both cases, so
    the exit status is 0 in both cases. A config file that cannot be opened
    or parsed makes [run()] fail with that error before anything else. *)
Theorem main_prints_error_exit_zero :
  (forall now e, main_exit now (Err e) = mkProcessExit [error_line now e] 0) /\
  (forall now, main_exit now (Ok tt) = mkProcessExit [] 0) /\
  (forall fuel env e, top_run fuel (Err e) env = ([], Some (Err e))).
Proof. split; [|split]; reflexivity. Qed.

(** A config file that cannot be opened: one error line, exit status 0. *)
Lemma main_prints_error_exit_zero_counterexample :
  let e := with_context "could not open config file" (format_err "No such file or directory") in
  snd (top_run 10 (Err e) (ex_env true (err_remote net_error))) = Some (Err e) /\
  main_exit "2019-06-01T12:00:00+00:00" (Err e) =
    mkProcessExit ["[2019-06-01T12:00:00+00:00] error: could not open config file: No such file or directory"] 0 /\
  exit_status (main_exit "2019-06-01T12:00:00+00:00" (Err e)) = 0%Z.
Proof. split; [|split]; reflexivity. Qed.

(** ** C10: another instance holds the lock *)

(** C10. When the lock file in the state directory opens (it exists, as
    another process holds it) and the exclusive lock cannot be taken,
    [Tracker::run] returns [Ok(())] after opening the lock file: its trace
    has no fetch of the repository config, no read or write of the state
    file, no remote call and no task; [main] then prints nothing and exits
    with status 0. *)
Theorem lock_held_silent_exit config env fuel now :
  env_lock_open env = Ok tt -> env_lock_free env = false ->
  tracker_run config env fuel = ([EvOpenLock (lockfile_path config)], Some (Ok tt)) /\
  top_run fuel (Ok config) env = ([EvOpenLock (lockfile_path config)], Some (Ok tt)) /\
  main_exit now (Ok tt) = mkProcessExit [] 0.
Proof.
  intros Ho Hf.
  assert (E : tracker_run config env fuel = ([EvOpenLock (lockfile_path config)], Some (Ok tt))).
  { unfold tracker_run, try_lock. rewrite Ho, Hf. reflexivity. }
  split; [exact E|]. split; [exact E|reflexivity].
Qed.

Lemma lock_held_silent_exit_witness :
  let env := mkEnv (Ok tt) false (Ok ex_repo_config_bad) true (Ok ex_state_poll)
               (fun _ => Ok tt) (err_remote net_error) in
  top_run 10 (Ok ex_config) env =
    ([EvOpenLock "/var/lib/wg-tracker/lock"], Some (Ok tt)).
Proof.
  intros env.
  exact (proj1 (proj2 (lock_held_silent_exit ex_config env 10 "now" eq_refl eq_refl))).
Defined.

(** ** C4: the watermarks of the polls *)

Lemma process_decisions_issue_keeps_time rc i w w' r :
  process_decisions_issue rc i w = (w', r) ->
  last_time_decisions (w_state w') = last_time_decisions (w_state w).
Proof.
  destruct w as [s cl]. unfold process_decisions_issue. unfold_monad. simpl.
  case_bool_decide as Hin; [intros H; inversion H; subst; reflexivity|].
  destruct (negb _); [intros H; inversion H; subst; reflexivity|].
  destruct (product_component rc (issue_labels i)) as [[p c]|e]; simpl;
    intros H; inversion H; subst; reflexivity.
Qed.

Lemma for_each_decisions_keeps_time rc issues w w' r :
  for_each (process_decisions_issue rc) issues w = (w', r) ->
  last_time_decisions (w_state w') = last_time_decisions (w_state w).
Proof.
  revert w w' r. induction issues as [|i issues IH]; intros w w' r; simpl.
  - intros H. inversion H; subst. reflexivity.
  - unfold mbind at 1, M_bind at 1.
    destruct (process_decisions_issue rc i w) as [w1 r1] eqn:E1.
    apply process_decisions_issue_keeps_time in E1.
    destruct r1 as [[]|e].
    + intros H. rewrite (IH _ _ _ H). exact E1.
    + intros H. inversion H; subst. exact E1.
Qed.

Lemma string_compare_refl s : String.compare s s = Eq.
Proof.
  induction s as [|a s IH]; simpl; [reflexivity|].
  unfold Ascii.compare. rewrite N.compare_refl. exact IH.
Qed.

Lemma string_leb_refl s : String.leb s s = true.
Proof. unfold String.leb. by rewrite string_compare_refl. Qed.

Lemma strongly_sorted_last {A} (R : A -> A -> Prop) l x :
  StronglySorted R (l ++ [x]) -> forall y, y ∈ l -> R y x.
Proof.
  induction l as [|a l IH]; simpl; intros H y Hy; [inversion Hy|].
  inversion H as [|a0 l0 Hs Hf]; subst.
  apply elem_of_cons in Hy as [->|Hy].
  - rewrite Forall_forall in Hf. apply Hf, elem_of_app. right. by apply list_elem_of_singleton.
  - exact (IH Hs y Hy).
Qed.

Lemma last_max (batch : list UpdatedIssue) i :
  last batch = Some i ->
  StronglySorted (fun a b => String.leb (updated_at a) (updated_at b) = true) batch ->
  forall j, j ∈ batch -> String.leb (updated_at j) (updated_at i) = true.
Proof.
  intros Hl Hs j Hj. apply last_Some in Hl as [l ->].
  apply elem_of_app in Hj as [Hj|Hj].
  - exact (strongly_sorted_last _ _ _ Hs j Hj).
  - apply list_elem_of_singleton in Hj as ->. apply string_leb_refl.
Qed.

(** C4 (amended). After a successful poll ([QueryWGIssuesTask] or
    [QueryDecisionsIssuesTask]) over the batch returned by the remote side,
    the watermark ([last_time_wg] or [last_time_decisions]) is the
    [updated_at] of the LAST issue of the batch, and is unchanged when the
    batch is empty. It is the maximum [updated_at] of the batch when the
    batch is sorted by [updated_at]; no comparison with the old watermark is
    made, so it is at least the old one exactly when that last [updated_at]
    is (or the batch is empty). *)
Theorem poll_watermark_is_last config rc R since s c w' :
  (run_task config rc R (QueryWGIssuesTask since) (mkWorld s c) = (w', Ok tt) ->
   exists batch,
     r_updated_issues R (wg_repo_owner config) (wg_repo_name config) since = Ok batch /\
     last_time_wg (w_state w') = default (last_time_wg s) (option_map updated_at (last batch)) /\
     (String.leb (last_time_wg s) (last_time_wg (w_state w')) = true <->
      match last batch with
      | Some i => String.leb (last_time_wg s) (updated_at i) = true
      | None => True
      end) /\
     (StronglySorted (fun a b => String.leb (updated_at a) (updated_at b) = true) batch ->
      forall j, j ∈ batch -> String.leb (updated_at j) (last_time_wg (w_state w')) = true)) /\
  (run_task config rc R (QueryDecisionsIssuesTask since) (mkWorld s c) = (w', Ok tt) ->
   exists batch,
     r_updated_issues R (decisions_repo_owner config) (decisions_repo_name config) since = Ok batch /\
     last_time_decisions (w_state w') =
       default (last_time_decisions s) (option_map updated_at (last batch)) /\
     (String.leb (last_time_decisions s) (last_time_decisions (w_state w')) = true <->
      match last batch with
      | Some i => String.leb (last_time_decisions s) (updated_at i) = true
      | None => True
      end) /\
     (StronglySorted (fun a b => String.leb (updated_at a) (updated_at b) = true) batch ->
      forall j, j ∈ batch -> String.leb (updated_at j) (last_time_decisions (w_state w')) = true)).
Proof.
  split.
  - simpl. unfold run_query_wg_issues, updated_issues.
    unfold mbind, M_bind, call. simpl.
    destruct (r_updated_issues R _ _ since) as [batch|e]; [|intros H; inversion H].
    intros H. exists batch. split; [reflexivity|].
    assert (Ht : last_time_wg (w_state w') =
                 default (last_time_wg s) (option_map updated_at (last batch))).
    { destruct (last batch) as [i|]; unfold modify_state, mret, M_ret in H; simpl in H;
        rewrite for_each_post in H; inversion H; subst; reflexivity. }
    split; [exact Ht|]. split.
    + rewrite Ht. destruct (last batch); simpl; [tauto|].
      split; [tauto|intros _; apply string_leb_refl].
    + intros Hs j Hj. rewrite Ht. destruct (last batch) as [i|] eqn:Hl; simpl.
      * exact (last_max batch i Hl Hs j Hj).
      * apply last_None in Hl. subst. inversion Hj.
  - simpl. unfold run_query_decisions_issues, updated_issues.
    unfold mbind, M_bind, call. simpl.
    destruct (r_updated_issues R _ _ since) as [batch|e]; [|intros H; inversion H].
    intros H. exists batch. split; [reflexivity|].
    assert (Ht : last_time_decisions (w_state w') =
                 default (last_time_decisions s) (option_map updated_at (last batch))).
    { destruct (last batch) as [i|]; unfold modify_state, mret, M_ret in H; simpl in H;
        apply for_each_decisions_keeps_time in H; rewrite H; reflexivity. }
    split; [exact Ht|]. split.
    + rewrite Ht. destruct (last batch); simpl; [tauto|].
      split; [tauto|intros _; apply string_leb_refl].
    + intros Hs j Hj. rewrite Ht. destruct (last batch) as [i|] eqn:Hl; simpl.
      * exact (last_max batch i Hl Hs j Hj).
      * apply last_None in Hl. subst. inversion Hj.
Qed.

Lemma poll_watermark_is_last_witness :
  last_time_wg (w_state (fst (run_task ex_config ex_repo_config_fonts
                                (batch_remote [ex_issue_fonts; ex_issue_grid])
                                (QueryWGIssuesTask "2019-05-01") (mkWorld ex_state_poll [])))) =
    "2019-06-02T10:00:00Z" /\
  forall j, j ∈ [ex_issue_fonts; ex_issue_grid] ->
    String.leb (updated_at j) "2019-06-02T10:00:00Z" = true.
Proof.
  destruct (proj1 (poll_watermark_is_last ex_config ex_repo_config_fonts
                     (batch_remote [ex_issue_fonts; ex_issue_grid]) "2019-05-01" ex_state_poll []
                     (fst (run_task ex_config ex_repo_config_fonts
                             (batch_remote [ex_issue_fonts; ex_issue_grid])
                             (QueryWGIssuesTask "2019-05-01") (mkWorld ex_state_poll []))))
                  ltac:(vm_compute; reflexivity))
    as (batch & Hb & Ht & _ & Hmax).
  simpl in Hb. inversion Hb; subst batch.
  assert (Hs : StronglySorted (fun a b => String.leb (updated_at a) (updated_at b) = true)
                 [ex_issue_fonts; ex_issue_grid]).
  { apply SSorted_cons; [apply SSorted_cons; [apply SSorted_nil|constructor]|].
    constructor; [vm_compute; reflexivity|constructor]. }
  split; [rewrite Ht; reflexivity|].
  intros j Hj. pose proof (Hmax Hs j Hj) as K. rewrite Ht in K. exact K.
Defined.

(** An unsorted batch: the watermark is the [updated_at] of its last
    issue, not its maximum; and a batch whose last issue is older than the
    old watermark moves the watermark back. *)
Lemma poll_watermark_max_counterexample :
  last_time_wg (w_state (fst (run_task ex_config ex_repo_config_fonts
                                (batch_remote [ex_issue_grid; ex_issue_fonts])
                                (QueryWGIssuesTask "2019-05-01") (mkWorld ex_state_poll [])))) =
    "2019-06-01T10:00:00Z" /\
  snd (run_task ex_config ex_repo_config_fonts (batch_remote [ex_issue_grid; ex_issue_fonts])
         (QueryWGIssuesTask "2019-05-01") (mkWorld ex_state_poll [])) = Ok tt /\
  String.ltb "2019-06-01T10:00:00Z" (updated_at ex_issue_grid) = true /\
  let s := set_last_time_wg "2019-07-01T00:00:00Z" ex_state_poll in
  last_time_wg (w_state (fst (run_task ex_config ex_repo_config_fonts
                                (batch_remote [ex_issue_fonts])
                                (QueryWGIssuesTask "2019-05-01") (mkWorld s [])))) =
    "2019-06-01T10:00:00Z" /\
  String.ltb "2019-06-01T10:00:00Z" (last_time_wg s) = true.
Proof. repeat split; vm_compute; reflexivity. Qed.

(** ** C5: saving and restoring the state *)

Lemma string_app_cons c a b : String c a +:+ b = String c (a +:+ b).
Proof. reflexivity. Qed.

Lemma string_app_nil_l b : EmptyString +:+ b = b.
Proof. reflexivity. Qed.

Lemma string_length_app a b :
  String.length (a +:+ b) = String.length a + String.length b.
Proof. induction a as [|c a IH]; rewrite ?string_app_cons; simpl; [reflexivity|]. by rewrite IH. Qed.

Lemma string_app_nil_r a : a +:+ EmptyString = a.
Proof. induction a as [|c a IH]; rewrite ?string_app_cons; simpl; [reflexivity|]. by rewrite IH. Qed.

Lemma string_app_assoc a b c : (a +:+ b) +:+ c = a +:+ (b +:+ c).
Proof. induction a as [|x a IH]; rewrite ?string_app_cons; [reflexivity|]. by rewrite IH. Qed.

Lemma enc_json_arr l : enc_json (JArr l) = String "[" (enc_list l).
Proof. reflexivity. Qed.

Lemma enc_json_obj fs : enc_json (JObj fs) = String "{" (enc_fields fs).
Proof. reflexivity. Qed.

Lemma dec_enc_pos p r : dec_pos (enc_pos p +:+ r) = Some (p, r).
Proof. induction p as [p IH|p IH|]; simpl; rewrite ?string_app_cons; simpl; try rewrite IH; reflexivity. Qed.

Lemma dec_enc_str s r : dec_str (enc_str s +:+ r) = Some (s, r).
Proof. induction s as [|c s IH]; simpl; rewrite ?string_app_cons; simpl; try rewrite IH; reflexivity. Qed.

Lemma enc_json_nonempty j : 1 <= String.length (enc_json j).
Proof. destruct j as [| [] | [] | | |]; simpl; lia. Qed.

Lemma dec_enc_all fuel :
  (forall j r, String.length (enc_json j) <= fuel -> dec_json fuel (enc_json j +:+ r) = Some (j, r)) /\
  (forall l r, String.length (enc_list l) <= fuel -> dec_list fuel (enc_list l +:+ r) = Some (l, r)) /\
  (forall fs r, String.length (enc_fields fs) <= fuel ->
                dec_fields fuel (enc_fields fs +:+ r) = Some (fs, r)).
Proof.
  induction fuel as [|f (IHj & IHl & IHf)].
  - split; [|split].
    + intros j r H. pose proof (enc_json_nonempty j). lia.
    + intros [|j l] r H; simpl in H; lia.
    + intros [|[k v] fs] r H; simpl in H; lia.
  - split; [|split].
    + intros [| [] | [|p|p] | s | l | fs] r H; try reflexivity.
      * cbn [enc_json enc_Z]. rewrite string_app_cons. simpl. by rewrite dec_enc_pos.
      * cbn [enc_json enc_Z]. rewrite string_app_cons. simpl. by rewrite dec_enc_pos.
      * cbn [enc_json]. rewrite string_app_cons. simpl. by rewrite dec_enc_str.
      * rewrite enc_json_arr in *. rewrite string_app_cons. simpl in H |- *.
        rewrite IHl by lia. reflexivity.
      * rewrite enc_json_obj in *. rewrite string_app_cons. simpl in H |- *.
        rewrite IHf by lia. reflexivity.
    + intros [|j l] r H; [reflexivity|].
      cbn [enc_list] in H |- *. rewrite string_app_cons. simpl in H |- *.
      rewrite string_length_app in H.
      rewrite string_app_assoc, IHj by lia. rewrite IHl by lia. reflexivity.
    + intros [|[k v] fs] r H; [reflexivity|].
      cbn [enc_fields] in H |- *. rewrite string_app_cons. simpl in H |- *.
      rewrite !string_length_app in H.
      rewrite !string_app_assoc, dec_enc_str, IHj by lia. rewrite IHf by lia. reflexivity.
Qed.

Lemma codec_parse_enc j : codec_parse (enc_json j) = Ok j.
Proof.
  unfold codec_parse.
  pose proof (proj1 (dec_enc_all (String.length (enc_json j))) j EmptyString (le_n _)) as H.
  rewrite string_app_nil_r in H. by rewrite H.
Qed.

Lemma mapM_result_map {A B} (f : A -> result B) (g : B -> A) l :
  (forall x, f (g x) = Ok x) -> mapM_result f (map g l) = Ok l.
Proof.
  intros Hfg. induction l as [|x l IH]; [reflexivity|].
  simpl. rewrite Hfg. simpl. rewrite IH. reflexivity.
Qed.

Lemma label_of_to_json l : label_of_json (label_to_json l) = Ok l.
Proof. destruct l. reflexivity. Qed.

Lemma labels_of_to_json ls : mapM_result label_of_json (map label_to_json ls) = Ok ls.
Proof. apply mapM_result_map, label_of_to_json. Qed.

Lemma strs_of_to_json ls : mapM_result as_str (map JStr ls) = Ok ls.
Proof. by apply mapM_result_map. Qed.

Lemma nums_of_to_json ls : mapM_result as_num (map JNum ls) = Ok ls.
Proof. by apply mapM_result_map. Qed.

(** The derives of the task structs round-trip. *)
Lemma task_of_to_json t : task_of_json (task_to_json t) = Ok t.
Proof.
  destruct t; unfold task_of_json, task_to_json, tagged, as_obj;
    rewrite bool_decide_eq_true_2 by (apply (bool_decide_unpack _); vm_compute; exact I);
    cbn -[mapM_result]; rewrite ?labels_of_to_json, ?strs_of_to_json; reflexivity.
Qed.

Lemma tasks_of_to_json ts : mapM_result task_of_json (map task_to_json ts) = Ok ts.
Proof. apply mapM_result_map, task_of_to_json. Qed.

(** The state read back from its document: the persisted fields, and
    [None] for the two skipped ones. *)
Lemma state_of_to_json s :
  state_of_json (state_to_json s) =
  Ok (mkState (tasks s) (posted_tasks s) (handled_wg_comments s) (handled_decisions_issues s)
              None None (last_time_wg s) (last_time_decisions s)).
Proof.
  destruct s as [ts ps hw hd kl rid lw ld]. unfold state_of_json, state_to_json, as_obj.
  rewrite bool_decide_eq_true_2 by (apply (bool_decide_unpack _); vm_compute; exact I).
  cbn -[mapM_result elements list_to_set].
  rewrite !tasks_of_to_json, strs_of_to_json, nums_of_to_json.
  cbn -[elements list_to_set].
  by rewrite !list_to_set_elements_L.
Qed.

(** C5. Whatever JSON text layer is used, provided it reads back every
    document it writes: restoring ([VersionedState::from_path]) the
    contents written by [State::save] gives a state with the same pending
    queue, staging list, ledgers and watermarks, and with both transient
    caches [None]. A file whose first line holds a version number other than
    1 is refused with the error "unknown state file version number". *)
Theorem snapshot_roundtrip json_to_string json_of_string
    (Hjson : forall j, json_of_string (json_to_string j) = Ok j) :
  (forall s, exists s',
     from_path_contents json_of_string (save_contents json_to_string s) = Ok s' /\
     tasks s' = tasks s /\ posted_tasks s' = posted_tasks s /\
     handled_wg_comments s' = handled_wg_comments s /\
     handled_decisions_issues s' = handled_decisions_issues s /\
     last_time_wg s' = last_time_wg s /\ last_time_decisions s' = last_time_decisions s /\
     known_labels s' = None /\ decisions_repo_id s' = None) /\
  (forall contents line json v,
     split_first_nl contents = Some (line, json) -> parse_u32 line = Ok v -> v <> 1%N ->
     from_path_contents json_of_string contents =
       Err (format_err ("unknown state file version number " +:+ pretty v))).
Proof.
  split.
  - intros s.
    exists (mkState (tasks s) (posted_tasks s) (handled_wg_comments s)
              (handled_decisions_issues s) None None (last_time_wg s) (last_time_decisions s)).
    split; [|repeat split; reflexivity].
    unfold from_path_contents, save_contents.
    assert (E : split_first_nl ("1" +:+ nl +:+ json_to_string (state_to_json s)) =
                Some ("1", json_to_string (state_to_json s))) by reflexivity.
    rewrite E. unfold from_versioned_str. simpl.
    rewrite Hjson. simpl. rewrite state_of_to_json. reflexivity.
  - intros contents line json v Hs Hv Hne.
    unfold from_path_contents. rewrite Hs, Hv. unfold from_versioned_str.
    destruct (N.eqb_spec v 1) as [E|_]; [contradiction|reflexivity].
Qed.

Lemma snapshot_roundtrip_witness :
  from_path_contents codec_parse (save_contents enc_json ex_state_saved) =
    Ok (set_decisions_repo_id None (set_known_labels None ex_state_saved)) /\
  from_path_contents codec_parse ("2" +:+ nl +:+ enc_json (state_to_json ex_state_saved)) =
    Err (format_err ("unknown state file version number " +:+ pretty 2%N)).
Proof.
  destruct (snapshot_roundtrip enc_json codec_parse codec_parse_enc) as [H1 H2].
  split.
  - destruct (H1 ex_state_saved) as (s' & E & Ht & Hp & Hw & Hd & Hlw & Hld & Hk & Hr).
    rewrite E. destruct s'; simpl in *; subst. reflexivity.
  - apply (H2 _ "2" (enc_json (state_to_json ex_state_saved)) 2%N); [reflexivity|reflexivity|lia].
Defined.

(** * Further properties of the code *)

(** ** Text helpers ([src/util.rs], [parse_component], the spec-name loop) *)

Lemma chars_app a b :
  String.list_ascii_of_string (a +:+ b)
  = String.list_ascii_of_string a ++ String.list_ascii_of_string b.
Proof. induction a as [|c a IH]; [reflexivity|]. rewrite string_app_cons. simpl. by rewrite IH. Qed.

(** [X1] [escape_markdown] escapes character by character: escaping a concatenation is the
    concatenation of the escaped parts. *)
Theorem escape_markdown_app a b :
  escape_markdown (a +:+ b) = escape_markdown a +:+ escape_markdown b.
Proof.
  induction a as [|c a IH]; [reflexivity|].
  rewrite string_app_cons. simpl. rewrite IH. by rewrite string_app_assoc.
Qed.

Lemma escape_char_no_html c x :
  In x (String.list_ascii_of_string (escape_char c)) ->
  x <> "<"%char /\ x <> ">"%char /\ x <> "|"%char.
Proof.
  destruct c as [[] [] [] [] [] [] [] []]; vm_compute;
    intros H; repeat destruct H as [<-|H]; try contradiction;
    repeat split; discriminate.
Qed.

(** [X2] The output of [escape_markdown] contains no ['<'], ['>'] or ['|']: these three are
    always replaced by an entity. *)
Theorem escape_markdown_no_html s x :
  In x (String.list_ascii_of_string (escape_markdown s)) ->
  x <> "<"%char /\ x <> ">"%char /\ x <> "|"%char.
Proof.
  induction s as [|c s IH]; simpl; [contradiction|].
  rewrite chars_app, in_app_iff. intros [H|H]; [eapply escape_char_no_html; eauto | auto].
Qed.

Lemma escape_char_plain c :
  existsb (Ascii.eqb c) (String.list_ascii_of_string "#&()*+<>[]\_`|-") = false ->
  escape_char c = String c EmptyString.
Proof.
  destruct c as [[] [] [] [] [] [] [] []]; vm_compute; intros H;
    first [reflexivity | discriminate].
Qed.

(** [X3] A string none of whose characters is in the class [#&()*+<>[]\_`|-] of
    [ESCAPE_MARKDOWN_RE] is left unchanged by [escape_markdown]. *)
Theorem escape_markdown_plain s :
  (forall c, In c (String.list_ascii_of_string s) ->
     existsb (Ascii.eqb c) (String.list_ascii_of_string "#&()*+<>[]\_`|-") = false) ->
  escape_markdown s = s.
Proof.
  induction s as [|c s IH]; intros H; [reflexivity|]. cbn [escape_markdown].
  rewrite escape_char_plain by (apply H; now left).
  rewrite string_app_cons, string_app_nil_l.
  f_equal. apply IH. intros x Hx. apply H. now right.
Qed.

Lemma prefix_app_drop p s :
  String.prefix p s = true -> p +:+ str_drop (String.length p) s = s.
Proof.
  revert s. induction p as [|a p IH]; intros s H; [reflexivity|].
  destruct s as [|b s]; [discriminate|]. simpl in H.
  destruct (ascii_dec a b) as [->|]; [|discriminate].
  rewrite string_app_cons. simpl. f_equal. auto.
Qed.

Lemma prefix_app p r : String.prefix p (p +:+ r) = true.
Proof.
  induction p as [|a p IH]; [destruct r; reflexivity|].
  rewrite string_app_cons. simpl. destruct (ascii_dec a a); [exact IH|congruence].
Qed.

Lemma split_str_go_nonempty fuel sep s : split_str_go fuel sep s <> [].
Proof.
  destruct fuel; simpl; [discriminate|].
  destruct s; [discriminate|]. destruct (String.prefix _ _); [discriminate|].
  destruct (split_str_go _ _ _); discriminate.
Qed.

Lemma split_str_go_concat fuel sep s : String.concat sep (split_str_go fuel sep s) = s.
Proof.
  revert s; induction fuel as [|f IH]; intros s; [reflexivity|].
  destruct s as [|a s']; [reflexivity|]. cbn [split_str_go].
  destruct (String.prefix sep (String a s')) eqn:P.
  - pose proof (split_str_go_nonempty f sep (str_drop (String.length sep) (String a s'))) as NE.
    pose proof (IH (str_drop (String.length sep) (String a s'))) as IH'.
    destruct (split_str_go f sep _) as [|h t]; [congruence|].
    change (String.concat sep (EmptyString :: h :: t))
      with (EmptyString +:+ sep +:+ String.concat sep (h :: t)).
    rewrite IH', string_app_nil_l. apply prefix_app_drop; auto.
  - specialize (IH s'). destruct (split_str_go f sep s') as [|h t]; [reflexivity|].
    destruct t as [|h2 t]; cbn [String.concat] in IH |- *; [by subst|].
    rewrite string_app_cons. by rewrite IH.
Qed.

(** [X4] [parse_component] only splits: when it succeeds, the two parts joined by
    " :: " give back the input. *)
Theorem parse_component_sound s p c :
  parse_component s = Ok (p, c) -> s = p +:+ " :: " +:+ c.
Proof.
  unfold parse_component, split_str.
  pose proof (split_str_go_concat (S (String.length s)) " :: " s) as H.
  destruct (split_str_go _ _ _) as [|a [|b [|]]]; intros E; try discriminate.
  inversion E; subst. reflexivity.
Qed.

Lemma prefix_sep_false x y r :
  y <> ":"%char -> String.prefix " :: " (String x (String y r)) = false.
Proof.
  intros Hy. cbn [String.prefix]. destruct (ascii_dec " " x); [|reflexivity].
  destruct (ascii_dec ":" y); [congruence|reflexivity].
Qed.

Lemma split_sep_no_colon b fuel :
  ~ In ":"%char (String.list_ascii_of_string b) -> split_str_go fuel " :: " b = [b].
Proof.
  revert fuel. induction b as [|x b IH]; intros fuel Hb; destruct fuel; try reflexivity.
  cbn [split_str_go].
  assert (P : String.prefix " :: " (String x b) = false).
  { destruct b as [|y r]; [cbn [String.prefix]; by destruct (ascii_dec " " x)|].
    apply prefix_sep_false. intros ->. apply Hb. simpl. auto. }
  rewrite P, IH; [reflexivity|]. intros H. apply Hb. simpl. auto.
Qed.

Lemma app_sep_head a c :
  ~ In ":"%char (String.list_ascii_of_string a) ->
  exists y r, a +:+ " :: " +:+ c = String y r /\ y <> ":"%char.
Proof.
  destruct a as [|y r]; intros H.
  - exists " "%char, (":: " +:+ c). split; [reflexivity|discriminate].
  - exists y, (r +:+ " :: " +:+ c). rewrite string_app_cons. split; [reflexivity|].
    intros ->. apply H. simpl. auto.
Qed.

Lemma split_sep_once a c fuel :
  ~ In ":"%char (String.list_ascii_of_string a) ->
  ~ In ":"%char (String.list_ascii_of_string c) ->
  String.length a < fuel ->
  split_str_go fuel " :: " (a +:+ " :: " +:+ c) = [a; c].
Proof.
  revert fuel. induction a as [|x a IH]; intros fuel Ha Hc Hf; destruct fuel; try lia.
  - rewrite string_app_nil_l. cbn [split_str_go]. rewrite !string_app_cons.
    cbn. rewrite string_app_nil_l, split_sep_no_colon by exact Hc. by destruct c.
  - rewrite string_app_cons. cbn [split_str_go].
    assert (Ha' : ~ In ":"%char (String.list_ascii_of_string a)) by (intros H; apply Ha; simpl; auto).
    destruct (app_sep_head a c Ha') as (y & r & E & Hy).
    rewrite E, prefix_sep_false by exact Hy. rewrite <- E.
    rewrite IH by (simpl in Hf; auto with lia). reflexivity.
Qed.

(** [X5] Conversely, a "Product :: Component" string whose two parts contain no colon
    is split by [parse_component] into exactly those two parts. *)
Theorem parse_component_complete p c :
  ~ In ":"%char (String.list_ascii_of_string p) ->
  ~ In ":"%char (String.list_ascii_of_string c) ->
  parse_component (p +:+ " :: " +:+ c) = Ok (p, c).
Proof.
  intros Hp Hc. unfold parse_component, split_str.
  rewrite split_sep_once; auto. rewrite !string_length_app. lia.
Qed.

Lemma take_until_paren_no_paren s :
  ~ In ")"%char (String.list_ascii_of_string (take_until_paren s)).
Proof.
  induction s as [|c s IH]; simpl; [auto|].
  destruct (Ascii.eqb_spec c ")"%char) as [->|Hc]; simpl; [auto|].
  intros [H|H]; [congruence|auto].
Qed.

Lemma take_until_paren_https s :
  String.prefix "https:" s = true -> String.prefix "https:" (take_until_paren s) = true.
Proof.
  intros H. rewrite <- (prefix_app_drop _ _ H). rewrite !string_app_cons, string_app_nil_l.
  simpl. by destruct (take_until_paren _).
Qed.

Lemma extract_urls_go_shape fuel s u :
  In u (extract_urls_go fuel s) ->
  String.prefix "https:" u = true /\ ~ In ")"%char (String.list_ascii_of_string u).
Proof.
  revert s. induction fuel as [|f IH]; intros s; simpl; [contradiction|].
  destruct s as [|c s']; [contradiction|].
  destruct (Ascii.eqb c "("%char && String.prefix "https:" s') eqn:E; [|apply IH].
  apply andb_true_iff in E as [_ E]. intros [<-|H]; [|eapply IH; eauto].
  split; [by apply take_until_paren_https | apply take_until_paren_no_paren].
Qed.

(** [X6] Every URL [extract_urls] finds starts with "https:" and contains no closing
    parenthesis. *)
Theorem extract_urls_https s u :
  In u (extract_urls s) ->
  String.prefix "https:" u = true /\ ~ In ")"%char (String.list_ascii_of_string u).
Proof. apply extract_urls_go_shape. Qed.

Lemma pop_digits_hyphens_spec r :
  exists d, r = d ++ pop_digits_hyphens r /\
    Forall (fun c => is_digit_or_hyphen c = true) d /\
    match pop_digits_hyphens r with [] => True | c :: _ => is_digit_or_hyphen c = false end.
Proof.
  induction r as [|c r IH]; simpl.
  - exists []. auto.
  - destruct (is_digit_or_hyphen c) eqn:E.
    + destruct IH as (d & Hd & F & L). exists (c :: d). simpl. rewrite <- Hd. auto.
    + exists []. auto.
Qed.

Lemma string_of_list_ascii_app l1 l2 :
  String.string_of_list_ascii (l1 ++ l2)
  = String.string_of_list_ascii l1 +:+ String.string_of_list_ascii l2.
Proof. induction l1 as [|c l1 IH]; [reflexivity|]. simpl. by rewrite string_app_cons, IH. Qed.

(** [X7] The spec-name loop of [QueryDecisionsIssuesTask::run] removes exactly the longest
    run of trailing digits and hyphens: the input is the result followed by
    that run, and the result is empty or does not end in a digit or a hyphen. *)
Theorem strip_spec_suffix_spec s :
  exists t, s = strip_spec_suffix s +:+ t /\
    Forall (fun c => is_digit_or_hyphen c = true) (String.list_ascii_of_string t) /\
    match rev (String.list_ascii_of_string (strip_spec_suffix s)) with
    | [] => True
    | c :: _ => is_digit_or_hyphen c = false
    end.
Proof.
  unfold strip_spec_suffix.
  destruct (pop_digits_hyphens_spec (rev (String.list_ascii_of_string s))) as (d & Hd & F & L).
  exists (String.string_of_list_ascii (rev d)).
  rewrite !String.list_ascii_of_string_of_list_ascii, rev_involutive.
  split; [|split].
  - rewrite <- string_of_list_ascii_app, <- rev_app_distr, <- Hd, rev_involutive.
    symmetry. apply String.string_of_list_ascii_of_string.
  - apply Forall_rev. exact F.
  - exact L.
Qed.

Lemma split_char_no_sep c s x :
  In x (split_char c s) -> ~ In c (String.list_ascii_of_string x).
Proof.
  revert x. induction s as [|a s IH]; intros x; simpl.
  - intros [<-|[]]. simpl. auto.
  - destruct (Ascii.eqb_spec a c) as [->|Ha].
    + intros [<-|H]; [simpl; auto | auto].
    + destruct (split_char c s) as [|h t] eqn:E; simpl.
      * intros [<-|[]]. simpl. intros [H|[]]. congruence.
      * intros [<-|H].
        -- simpl. intros [H|H]; [congruence|]. apply (IH h); [by left|exact H].
        -- apply IH. by right.
Qed.

Lemma strip_cr_chars s c :
  In c (String.list_ascii_of_string (strip_cr s)) -> In c (String.list_ascii_of_string s).
Proof.
  induction s as [|a s IH]; simpl; [auto|].
  destruct s as [|b s']; simpl.
  - destruct (Ascii.eqb a "013"%char); simpl; auto.
  - intros [H|H]; [by left | right; by apply IH].
Qed.

Lemma in_removelast_in {A} (x : A) l : In x (removelast l) -> In x l.
Proof.
  induction l as [|a l IH]; intros H; [exact H|]. simpl in H.
  destruct l as [|b l']; [destruct H|].
  destruct H as [H|H]; [left; exact H | right; apply IH; exact H].
Qed.

(** [X8] Each resolution of a comment is one line of its body with the prefix
    "RESOLVED: " removed, and it contains no line break. *)
Theorem resolutions_of_lines body r :
  In r (resolutions_of body) ->
  In (RESOLVED_PREFIX +:+ r) (lines body) /\
  ~ In "010"%char (String.list_ascii_of_string r).
Proof.
  unfold resolutions_of. rewrite in_map_iff. intros (l & <- & Hl).
  apply filter_In in Hl as [Hl P].
  split; [by rewrite prefix_app_drop|].
  intros Hn. unfold lines in Hl. apply in_map_iff in Hl as (x & <- & Hx).
  assert (Hx' : In x (split_char "010"%char body)).
  { destruct (last (split_char _ body)) as [[|]|]; auto. by apply in_removelast_in. }
  apply (split_char_no_sep _ _ _ Hx'). apply strip_cr_chars.
  rewrite <- (prefix_app_drop _ _ P), chars_app, in_app_iff. by right.
Qed.

(** ** Tasks that need the caches *)

(** [X9] An [EnsureLabelTask], [FileIssueTask] or [RemoveDecisionsIssueBugLabelTask] run
    while the label cache is empty makes no call, succeeds, and only stages
    [QueryDecisionsKnownLabelsTask] followed by a copy of itself. *)
Theorem missing_known_labels_defers config rc R t s c w' r :
  ((exists n col, t = EnsureLabelTask n col) \/
   (exists n ti ls u rs, t = FileIssueTask n ti ls u rs) \/
   (exists iid, t = RemoveDecisionsIssueBugLabelTask iid)) ->
  known_labels s = None ->
  run_task config rc R t (mkWorld s c) = (w', r) ->
  r = Ok tt /\
  w' = mkWorld (set_posted_tasks (posted_tasks s ++ [QueryDecisionsKnownLabelsTask; t]) s) c.
Proof.
  intros Ht Hk.
  destruct Ht as [(n & col & ->) | [(n & ti & ls & u & rs & ->) | (iid & ->)]]; simpl;
    [unfold run_ensure_label | unfold run_file_issue | unfold run_remove_bug_label];
    unfold_monad; simpl; rewrite Hk; simpl; intros H; inversion H; subst;
    (split; [reflexivity|]); by rewrite <- app_assoc.
Qed.

(** [X10] An [EnsureLabelTask] or [FileIssueTask] run with the label cache loaded but no
    repository id makes no call, succeeds, and only stages
    [QueryDecisionsRepoID] followed by a copy of itself. *)
Theorem missing_repo_id_defers config rc R t s c kl w' r :
  ((exists n col, t = EnsureLabelTask n col) \/
   (exists n ti ls u rs, t = FileIssueTask n ti ls u rs)) ->
  known_labels s = Some kl ->
  decisions_repo_id s = None ->
  run_task config rc R t (mkWorld s c) = (w', r) ->
  r = Ok tt /\
  w' = mkWorld (set_posted_tasks (posted_tasks s ++ [QueryDecisionsRepoID; t]) s) c.
Proof.
  intros Ht Hk Hr.
  destruct Ht as [(n & col & ->) | (n & ti & ls & u & rs & ->)]; simpl;
    [unfold run_ensure_label | unfold run_file_issue];
    unfold_monad; simpl; rewrite Hk, Hr; simpl; intros H; inversion H; subst;
    (split; [reflexivity|]); by rewrite <- app_assoc.
Qed.

(** [X11] With both caches loaded, [FileIssueTask::run] leaves the state unchanged and makes
    exactly one call, creating the decision issue with the ids the label cache
    gives for its label names; it succeeds exactly when that call does. *)
Theorem file_issue_single_create config rc R n title ls url rs s c kl rid w' r :
  known_labels s = Some kl ->
  decisions_repo_id s = Some rid ->
  run_task config rc R (FileIssueTask n title ls url rs) (mkWorld s c) = (w', r) ->
  w_state w' = s /\
  exists ids,
    w_calls w' = c ++ [CCreateIssue rid title (decision_issue_body config n title url rs) ids] /\
    (forall lid, lid ∈ ids <-> exists name, name ∈ ls /\ kl !! name = Some lid) /\
    (r = Ok tt <-> exists iid, r_create_issue R rid title
                                 (decision_issue_body config n title url rs) ids = Ok iid).
Proof.
  intros Hk Hr. simpl. unfold run_file_issue. unfold_monad. simpl. rewrite Hk, Hr.
  destruct (r_create_issue R rid title _ _) as [iid|e] eqn:E; simpl;
    intros H; inversion H; subst; simpl; (split; [reflexivity|]);
    eexists; (split; [reflexivity|]); (split; [intros lid; by rewrite list_elem_of_omap|]).
  - split; [intros _; eauto | reflexivity].
  - split; [discriminate | intros [iid' E']; congruence].
Qed.

(** [X12] With the label cache loaded, [RemoveDecisionsIssueBugLabelTask::run] never changes
    the state; without a "bug" entry it fails with no call, otherwise it makes one
    remove-labels call with that id and returns its result. *)
Theorem remove_bug_label_outcome config rc R iid s c kl w' r :
  known_labels s = Some kl ->
  run_task config rc R (RemoveDecisionsIssueBugLabelTask iid) (mkWorld s c) = (w', r) ->
  w_state w' = s /\
  match kl !! "bug" with
  | None => r = Err (format_err "decisions repo missing 'bug' label") /\ w_calls w' = c
  | Some lid => w_calls w' = c ++ [CRemoveLabels iid [lid]] /\ r = r_remove_labels R iid [lid]
  end.
Proof.
  intros Hk. simpl. unfold run_remove_bug_label. unfold_monad. simpl. rewrite Hk.
  destruct (kl !! "bug"); intros H; inversion H; subst; auto.
Qed.

(** [X13] [QueryDecisionsRepoID::run] makes one repository-id query; it stores the id when
    the repository is found, and otherwise fails with the state unchanged
    ("repository not found" when the answer is empty). *)
Theorem query_repo_id_outcome config rc R s c w' r :
  run_task config rc R QueryDecisionsRepoID (mkWorld s c) = (w', r) ->
  w_calls w' = c ++ [CRepoId (decisions_repo_owner config) (decisions_repo_name config)] /\
  match r_repo_id R (decisions_repo_owner config) (decisions_repo_name config) with
  | Ok (Some rid) => r = Ok tt /\ w_state w' = set_decisions_repo_id (Some rid) s
  | Ok None => r = Err (format_err "repository not found") /\ w_state w' = s
  | Err e => r = Err e /\ w_state w' = s
  end.
Proof.
  simpl. unfold run_query_repo_id. unfold_monad. simpl.
  destruct (r_repo_id R _ _) as [[rid|]|e]; simpl; intros H; inversion H; subst; auto.
Qed.

(** ** Loading the label cache *)




(** ** What the polls stage *)

Lemma for_each_post_if {A} (p : A -> bool) (f : A -> Task) (xs : list A) (w : World) :
  for_each (fun x => if p x then post_task (f x) else mret tt) xs w =
  (mkWorld (set_posted_tasks (posted_tasks (w_state w) ++ map f (List.filter p xs)) (w_state w))
           (w_calls w), Ok tt).
Proof.
  revert w. induction xs as [|x xs IH]; intros [s c]; simpl.
  - unfold_monad. rewrite app_nil_r. by destruct s.
  - unfold mbind at 1, M_bind at 1. destruct (p x); simpl.
    + unfold post_task, modify_state. simpl. rewrite IH. simpl. by rewrite <- app_assoc.
    + unfold mret, M_ret. rewrite IH. reflexivity.
Qed.

(** [X15] [QueryWGIssueCommentsTask::run] makes one comment query and, on success, stages one
    [ProcessWGCommentTask] per comment created at or after [since], in order,
    changing nothing else; on failure the state is unchanged. *)
Theorem query_comments_stages config rc R n title ls since s c w' r :
  run_task config rc R (QueryWGIssueCommentsTask n title ls since) (mkWorld s c) = (w', r) ->
  w_calls w' = c ++ [CIssueComments (wg_repo_owner config) (wg_repo_name config) n] /\
  match r_issue_comments R (wg_repo_owner config) (wg_repo_name config) n with
  | Err e => r = Err e /\ w_state w' = s
  | Ok comments =>
      r = Ok tt /\
      w_state w' = set_posted_tasks (posted_tasks s ++
        map (fun cm => ProcessWGCommentTask n title ls (comment_url cm) (body_text cm))
            (List.filter (fun cm => String.leb since (created_at cm)) comments)) s
  end.
Proof.
  simpl. unfold run_query_wg_issue_comments. unfold mbind at 1, M_bind at 1, call. simpl.
  destruct (r_issue_comments R _ _ n) as [comments|e].
  - rewrite (for_each_post_if (fun cm => String.leb since (created_at cm))
               (fun cm => ProcessWGCommentTask n title ls (comment_url cm) (body_text cm))).
    simpl. intros H. inversion H; subst. auto.
  - intros H. inversion H; subst. auto.
Qed.

(** [X16] [QueryWGIssuesTask::run] makes one issue query and, on success, stages one
    [QueryWGIssueCommentsTask] per issue, in order, carrying the task's own
    [since], and leaves the comment ledger alone; on failure the state is unchanged. *)
Theorem query_wg_issues_stages config rc R since s c w' r :
  run_task config rc R (QueryWGIssuesTask since) (mkWorld s c) = (w', r) ->
  w_calls w' = c ++ [CUpdatedIssues (wg_repo_owner config) (wg_repo_name config) since] /\
  match r_updated_issues R (wg_repo_owner config) (wg_repo_name config) since with
  | Err e => r = Err e /\ w_state w' = s
  | Ok issues =>
      r = Ok tt /\
      handled_wg_comments (w_state w') = handled_wg_comments s /\
      posted_tasks (w_state w') = posted_tasks s ++
        map (fun i => QueryWGIssueCommentsTask (issue_number i) (issue_title i) (issue_labels i) since)
            issues
  end.
Proof.
  simpl. unfold run_query_wg_issues, updated_issues. unfold mbind at 1, M_bind at 1, call. simpl.
  destruct (r_updated_issues R _ _ since) as [issues|e].
  - unfold mbind at 1, M_bind at 1.
    destruct (last issues); unfold modify_state, mret, M_ret; simpl;
      rewrite for_each_post; simpl; intros H; inversion H; subst; auto.
  - intros H. inversion H; subst. auto.
Qed.

Lemma process_decisions_issue_ledger rc i w w' :
  process_decisions_issue rc i w = (w', Ok tt) ->
  forall x, x ∈ handled_decisions_issues (w_state w') <->
    x ∈ handled_decisions_issues (w_state w) \/
    (has_bug_label (issue_labels i) = true /\ x = issue_number i).
Proof.
  destruct w as [s cl]. unfold process_decisions_issue. unfold_monad. simpl.
  case_bool_decide as Hin.
  - intros H. inversion H; subst. simpl. intros x. split; [auto|]. intros [Hx|[_ ->]]; auto.
  - destruct (has_bug_label (issue_labels i)) eqn:B; simpl.
    + destruct (product_component rc (issue_labels i)) as [[p c]|e]; simpl;
        intros H; inversion H; subst; simpl.
      intros x. rewrite elem_of_union, elem_of_singleton. tauto.
    + intros H. inversion H; subst. simpl. intros x. split; [auto|]. intros [Hx|[? _]]; [done|discriminate].
Qed.

Lemma for_each_decisions_ledger rc issues w w' :
  for_each (process_decisions_issue rc) issues w = (w', Ok tt) ->
  forall x, x ∈ handled_decisions_issues (w_state w') <->
    x ∈ handled_decisions_issues (w_state w) \/
    exists i, i ∈ issues /\ has_bug_label (issue_labels i) = true /\ x = issue_number i.
Proof.
  revert w. induction issues as [|i issues IH]; intros w; simpl.
  - intros H. inversion H; subst. intros x. split; [auto|]. intros [Hx|(i & Hi & _)]; [done|inversion Hi].
  - unfold mbind at 1, M_bind at 1.
    destruct (process_decisions_issue rc i w) as [w1 [[]|e]] eqn:E1; [|discriminate].
    intros H x. rewrite (IH _ H x), (process_decisions_issue_ledger _ _ _ _ E1 x).
    split.
    + intros [[Hx|[B ->]]|(j & Hj & B & ->)]; [auto| |].
      * right. exists i. split; [apply elem_of_cons; by left|auto].
      * right. exists j. split; [apply elem_of_cons; by right|auto].
    + intros [Hx|(j & Hj & B & ->)]; [auto|].
      apply elem_of_cons in Hj as [->|Hj]; [auto|]. right. eauto.
Qed.

(** [X17] After a successful [QueryDecisionsIssuesTask::run], the decision-issue ledger is
    the old ledger plus the numbers of the polled issues that carry the "bug"
    label, and nothing else. *)
Theorem decisions_poll_ledger config rc R since s c w' :
  run_task config rc R (QueryDecisionsIssuesTask since) (mkWorld s c) = (w', Ok tt) ->
  forall x, x ∈ handled_decisions_issues (w_state w') <->
    x ∈ handled_decisions_issues s \/
    exists i, i ∈ decisions_batch config R since /\
              has_bug_label (issue_labels i) = true /\ x = issue_number i.
Proof.
  simpl. unfold run_query_decisions_issues, updated_issues, decisions_batch.
  unfold mbind at 1, M_bind at 1, call. simpl.
  destruct (r_updated_issues R _ _ since) as [batch|e]; [|discriminate].
  unfold mbind at 1, M_bind at 1.
  destruct (last batch); unfold modify_state, mret, M_ret; simpl;
    intros H; exact (for_each_decisions_ledger _ _ _ _ H).
Qed.

(** ** The engine step and the driver *)

(** [X18] On a finished state (no pending and no staged task), [State::iterate] changes
    nothing, makes no call and succeeds. *)
Theorem iterate_finished_noop config rc R s c :
  is_finished s = true -> iterate config rc R (mkWorld s c) = (mkWorld s c, Ok tt).
Proof.
  unfold is_finished, iterate. simpl.
  destruct (tasks s) eqn:T, (posted_tasks s) eqn:P; try discriminate. intros _.
  unfold merge_posted. rewrite P, T. reflexivity.
Qed.

(** [X19] After a successful [State::iterate], the pending queue is the staged tasks followed
    by the old queue, with its first task removed. *)
Theorem iterate_success_pops config rc R s c w' :
  iterate config rc R (mkWorld s c) = (w', Ok tt) ->
  tasks (w_state w') = tl (posted_tasks s ++ tasks s).
Proof.
  unfold iterate. simpl. rewrite <- merge_posted_tasks.
  destruct (tasks (merge_posted s)) as [|t rest] eqn:T.
  - intros H. inversion H; subst. simpl. by rewrite T.
  - destruct (run_task config rc R t _) as [w1 [[]|e]] eqn:E; intros H; inversion H; subst.
    simpl. apply run_task_keeps_queue in E. exact E.
Qed.

(** [X20] When the loop of [Tracker::run] ends with success, its last event is the write of
    a finished state, and that write succeeded. *)
Theorem drive_ok_finished config env fuel rc s ev :
  drive config env fuel rc s = (ev, Some (Ok tt)) ->
  exists ev0 s', ev = ev0 ++ [EvSaveState s'] /\ is_finished s' = true /\ env_save env s' = Ok tt.
Proof.
  revert s ev. induction fuel as [|f IH]; intros s ev; simpl; [discriminate|].
  destruct (loop_body config env rc s) as [ev1 [s1|r1]] eqn:L.
  - destruct (drive config env f rc s1) as [ev2 r2] eqn:D. intros H. inversion H; subst.
    destruct (IH _ _ D) as (ev0 & s' & -> & F & S). exists (ev1 ++ ev0), s'.
    rewrite <- app_assoc. auto.
  - intros H. inversion H; subst. unfold loop_body in L.
    destruct (iterate config rc (env_remote env) (mkWorld s [])) as [w' r].
    destruct (env_save env (w_state w')) as [[]|e'] eqn:S; [|discriminate].
    destruct r as [[]|e]; [|discriminate].
    destruct (is_finished (w_state w')) eqn:F; [|discriminate]. inversion L; subst.
    exists (map EvRemote (w_calls w')), (w_state w'). split; [reflexivity|]. split; [done|].
    exact S.
Qed.

(** [X21] When the lock is taken but the repository configuration or an existing state file
    cannot be loaded, [Tracker::run] returns that error before any query to the
    remote side and without writing the state file. *)
Theorem tracker_run_setup_error config env fuel e :
  env_lock_open env = Ok tt ->
  env_lock_free env = true ->
  (env_repo_config env = Err e \/
   (exists rc, env_repo_config env = Ok rc /\ env_state_exists env = true /\
               env_state_file env = Err e)) ->
  exists ev, tracker_run config env fuel = (ev, Some (Err e)) /\
    (forall c, EvRemote c ∉ ev) /\ (forall s, EvSaveState s ∉ ev).
Proof.
  intros Ho Hf Hc. unfold tracker_run, try_lock. rewrite Ho, Hf.
  destruct Hc as [Hr | (rc & Hr & Hx & Hs)]; rewrite Hr; [|rewrite Hx, Hs];
    eexists; (split; [reflexivity|]);
    split; intros ? Hin; repeat (apply elem_of_app in Hin as [Hin|Hin]);
    repeat (apply elem_of_cons in Hin as [Hin|Hin]; [discriminate|]); inversion Hin.
Qed.

(** ** The configuration file *)

Lemma validate_config_ok dm c c' :
  validate_config dm c = Ok c' ->
  c' = c /\ repo_id_re_match (wg_repo_owner c) = true /\ repo_id_re_match (wg_repo_name c) = true /\
  repo_id_re_match (decisions_repo_owner c) = true /\
  repo_id_re_match (decisions_repo_name c) = true.
Proof.
  unfold validate_config, validate_syntax, mbind, result_bind.
  destruct (repo_id_re_match (wg_repo_owner c)); [|discriminate].
  destruct (repo_id_re_match (wg_repo_name c)); [|discriminate].
  destruct (repo_id_re_match (decisions_repo_owner c)); [|discriminate].
  destruct (repo_id_re_match (decisions_repo_name c)); [|discriminate].
  destruct (dm (start_date c)); [|discriminate]. intros H. inversion H. auto.
Qed.

Lemma repo_id_no_slash s :
  repo_id_re_match s = true -> s <> EmptyString /\ forall x, In x (String.list_ascii_of_string s) -> x <> "/"%char.
Proof.
  destruct s as [|a s]; [discriminate|]. intros H. split; [discriminate|].
  intros x Hx ->. unfold repo_id_re_match in H. rewrite forallb_forall in H.
  apply H in Hx. discriminate.
Qed.

Lemma split_char_none c a :
  (forall x, In x (String.list_ascii_of_string a) -> x <> c) -> split_char c a = [a].
Proof.
  induction a as [|x a IH]; intros H; [reflexivity|]. simpl.
  destruct (Ascii.eqb_spec x c) as [E|E]; [exfalso; apply (H x); simpl; auto|].
  rewrite IH; [reflexivity|]. intros y Hy. apply H. simpl. auto.
Qed.

Lemma split_char_app c a b :
  (forall x, In x (String.list_ascii_of_string a) -> x <> c) ->
  split_char c (a +:+ String c b) = a :: split_char c b.
Proof.
  induction a as [|x a IH]; intros H.
  - rewrite string_app_nil_l. simpl. by rewrite Ascii.eqb_refl.
  - rewrite string_app_cons. simpl.
    destruct (Ascii.eqb_spec x c) as [E|E]; [exfalso; apply (H x); simpl; auto|].
    rewrite IH; [reflexivity|]. intros y Hy. apply H. simpl. auto.
Qed.

Lemma repo_url_split owner name :
  repo_id_re_match owner = true -> repo_id_re_match name = true ->
  split_char "/" ("https://github.com/" +:+ owner +:+ "/" +:+ name) =
    ["https:"; ""; "github.com"; owner; name].
Proof.
  intros Ho Hn. apply repo_id_no_slash in Ho as [_ Ho]. apply repo_id_no_slash in Hn as [_ Hn].
  change ("https://github.com/" +:+ owner +:+ "/" +:+ name) with
    ("https:" +:+ String "/" (EmptyString +:+ String "/" ("github.com" +:+ String "/"
       (owner +:+ String "/" name)))).
  rewrite !split_char_app, split_char_none; auto;
    intros x Hx; simpl in Hx; repeat destruct Hx as [<-|Hx]; try contradiction; discriminate.
Qed.

(** [X22] A configuration accepted by [Config::from_file] has four nonempty repository
    names without slashes, so both [wg_repo_url] and [decisions_repo_url] split at
    "/" into "https:", the empty string, "github.com", the owner and the name. *)
Theorem config_urls_well_formed date_re_match config_of_toml toml config :
  config_from_toml date_re_match config_of_toml toml = Ok config ->
  config_of_toml toml = Ok config /\
  split_char "/" (wg_repo_url config) =
    ["https:"; ""; "github.com"; wg_repo_owner config; wg_repo_name config] /\
  split_char "/" (decisions_repo_url config) =
    ["https:"; ""; "github.com"; decisions_repo_owner config; decisions_repo_name config] /\
  wg_repo_owner config <> EmptyString /\ wg_repo_name config <> EmptyString /\
  decisions_repo_owner config <> EmptyString /\ decisions_repo_name config <> EmptyString.
Proof.
  unfold config_from_toml. destruct (config_of_toml toml) as [c|e]; [|discriminate].
  intros H. apply validate_config_ok in H as (-> & H1 & H2 & H3 & H4).
  split; [reflexivity|]. unfold wg_repo_url, decisions_repo_url.
  rewrite !repo_url_split by assumption.
  repeat split; auto; [apply repo_id_no_slash in H1 | apply repo_id_no_slash in H2
    | apply repo_id_no_slash in H3 | apply repo_id_no_slash in H4]; tauto.
Qed.

(** ** Reading the snapshot file *)



Lemma split_first_nl_none s :
  ~ In "010"%char (String.list_ascii_of_string s) -> split_first_nl s = None.
Proof.
  induction s as [|c s IH]; intros H; [reflexivity|]. simpl.
  destruct (Ascii.eqb_spec c "010"%char) as [->|E]; [exfalso; apply H; simpl; auto|].
  rewrite IH; [reflexivity|]. intros Hn. apply H. simpl. auto.
Qed.

(** [X24] [VersionedState::from_path] rejects a state file without a line break with
    "could not find version number in state file", whatever the JSON decoder. *)
Theorem from_path_no_newline json_of_string contents :
  ~ In "010"%char (String.list_ascii_of_string contents) ->
  from_path_contents json_of_string contents
  = Err (format_err "could not find version number in state file").
Proof. intros H. unfold from_path_contents. by rewrite split_first_nl_none. Qed.

(** ** Witnesses of the further properties *)

Ltac in_list := simpl; repeat (first [left; reflexivity | right]).
Ltac not_in := let H := fresh in intros H; simpl in H;
  repeat (destruct H as [H|H]; [discriminate H|]); exact H.

Lemma escape_markdown_no_html_witness :
  In "&"%char (String.list_ascii_of_string (escape_markdown "a<b|c")) /\
  ("&"%char <> "<"%char /\ "&"%char <> ">"%char /\ "&"%char <> "|"%char).
Proof.
  assert (H : In "&"%char (String.list_ascii_of_string (escape_markdown "a<b|c"))) by (vm_compute; in_list).
  split; [exact H|]. exact (escape_markdown_no_html "a<b|c" "&"%char H).
Defined.

Lemma escape_markdown_plain_witness : escape_markdown "Encoding" = "Encoding".
Proof.
  apply escape_markdown_plain. intros c Hc. simpl in Hc.
  repeat destruct Hc as [<-|Hc]; try contradiction; vm_compute; reflexivity.
Defined.

Lemma parse_component_sound_witness :
  parse_component "Widgets :: Core" = Ok ("Widgets", "Core") /\
  "Widgets :: Core" = "Widgets" +:+ " :: " +:+ "Core".
Proof.
  assert (H : parse_component "Widgets :: Core" = Ok ("Widgets", "Core")) by (vm_compute; reflexivity).
  split; [exact H|]. exact (parse_component_sound _ _ _ H).
Defined.

Lemma parse_component_complete_witness :
  parse_component ("CSS" +:+ " :: " +:+ "Fonts") = Ok ("CSS", "Fonts").
Proof.
  apply parse_component_complete; not_in.
Defined.

Lemma extract_urls_https_witness :
  In "https://example.org/a" (extract_urls "See [minutes](https://example.org/a) (not this)") /\
  String.prefix "https:" "https://example.org/a" = true /\
  ~ In ")"%char (String.list_ascii_of_string "https://example.org/a").
Proof.
  assert (H : In "https://example.org/a"
                (extract_urls "See [minutes](https://example.org/a) (not this)"))
    by (vm_compute; left; reflexivity).
  split; [exact H|]. exact (extract_urls_https _ _ H).
Defined.

Lemma resolutions_of_lines_witness :
  In "Use UTF-8" (resolutions_of ex_body) /\
  In (RESOLVED_PREFIX +:+ "Use UTF-8") (lines ex_body) /\
  ~ In "010"%char (String.list_ascii_of_string "Use UTF-8").
Proof.
  assert (H : In "Use UTF-8" (resolutions_of ex_body)) by (vm_compute; left; reflexivity).
  split; [exact H|]. exact (resolutions_of_lines _ _ H).
Defined.


Lemma missing_known_labels_defers_witness :
  let X := run_task ex_config ex_repo_config_labels ex_remote
             (EnsureLabelTask "[spec] css-fonts-4" "e0e0e0") (mkWorld (State_new "2019-05-01") []) in
  snd X = Ok tt /\
  fst X = mkWorld (set_posted_tasks (posted_tasks (State_new "2019-05-01") ++
             [QueryDecisionsKnownLabelsTask; EnsureLabelTask "[spec] css-fonts-4" "e0e0e0"])
             (State_new "2019-05-01")) [].
Proof.
  intros X. apply (missing_known_labels_defers ex_config ex_repo_config_labels ex_remote
    (EnsureLabelTask "[spec] css-fonts-4" "e0e0e0") (State_new "2019-05-01") [] (fst X) (snd X)).
  - left. eauto.
  - reflexivity.
  - apply surjective_pairing.
Defined.

Lemma missing_repo_id_defers_witness :
  let s := set_known_labels (Some ∅) (State_new "2019-05-01") in
  let t := FileIssueTask 42 "Encoding" ["[spec] css-fonts-4"] ex_url ["Use UTF-8"] in
  let X := run_task ex_config ex_repo_config_labels ex_remote t (mkWorld s []) in
  snd X = Ok tt /\
  fst X = mkWorld (set_posted_tasks (posted_tasks s ++ [QueryDecisionsRepoID; t]) s) [].
Proof.
  intros s t X. apply (missing_repo_id_defers ex_config ex_repo_config_labels ex_remote t s [] ∅
    (fst X) (snd X)).
  - right. unfold t. eauto 10.
  - reflexivity.
  - reflexivity.
  - apply surjective_pairing.
Defined.

Lemma file_issue_single_create_witness :
  let ls := ["[spec] css-fonts-4"; "[spec] css-grid-1"] in
  let kl := <["[spec] css-fonts-4" := "LA_fonts"]> (∅ : gmap string string) in
  let X := run_task ex_config ex_repo_config_labels ex_remote
             (FileIssueTask 42 "Encoding" ls ex_url ["Use UTF-8"]) (mkWorld ex_state_saved []) in
  w_state (fst X) = ex_state_saved /\
  exists ids,
    w_calls (fst X) = [] ++ [CCreateIssue "R_kgDOrepo" "Encoding"
                               (decision_issue_body ex_config 42 "Encoding" ex_url ["Use UTF-8"]) ids] /\
    (forall lid, lid ∈ ids <-> exists name, name ∈ ls /\ kl !! name = Some lid) /\
    (snd X = Ok tt <-> exists iid, r_create_issue ex_remote "R_kgDOrepo" "Encoding"
        (decision_issue_body ex_config 42 "Encoding" ex_url ["Use UTF-8"]) ids = Ok iid).
Proof.
  intros ls kl X. apply (file_issue_single_create ex_config ex_repo_config_labels ex_remote 42
    "Encoding" ls ex_url ["Use UTF-8"] ex_state_saved [] kl "R_kgDOrepo" (fst X) (snd X)).
  - reflexivity.
  - reflexivity.
  - apply surjective_pairing.
Defined.

Lemma remove_bug_label_outcome_witness :
  let kl := <["[spec] css-fonts-4" := "LA_fonts"]> (∅ : gmap string string) in
  let X := run_task ex_config ex_repo_config_labels ex_remote
             (RemoveDecisionsIssueBugLabelTask "MDU6SXNzdWU3") (mkWorld ex_state_saved []) in
  w_state (fst X) = ex_state_saved /\
  match kl !! "bug" with
  | None => snd X = Err (format_err "decisions repo missing 'bug' label") /\ w_calls (fst X) = []
  | Some lid => w_calls (fst X) = [] ++ [CRemoveLabels "MDU6SXNzdWU3" [lid]] /\
                snd X = r_remove_labels ex_remote "MDU6SXNzdWU3" [lid]
  end.
Proof.
  intros kl X. apply (remove_bug_label_outcome ex_config ex_repo_config_labels ex_remote
    "MDU6SXNzdWU3" ex_state_saved [] kl (fst X) (snd X)).
  - reflexivity.
  - apply surjective_pairing.
Defined.

Lemma query_repo_id_outcome_witness :
  let X := run_task ex_config ex_repo_config_labels ex_remote QueryDecisionsRepoID
             (mkWorld (State_new "2019-05-01") []) in
  w_calls (fst X) = [] ++ [CRepoId "w3c" "csswg-decisions"] /\
  match r_repo_id ex_remote "w3c" "csswg-decisions" with
  | Ok (Some rid) => snd X = Ok tt /\
                     w_state (fst X) = set_decisions_repo_id (Some rid) (State_new "2019-05-01")
  | Ok None => snd X = Err (format_err "repository not found") /\
               w_state (fst X) = State_new "2019-05-01"
  | Err e => snd X = Err e /\ w_state (fst X) = State_new "2019-05-01"
  end.
Proof.
  intros X. apply (query_repo_id_outcome ex_config ex_repo_config_labels ex_remote
    (State_new "2019-05-01") [] (fst X) (snd X)).
  apply surjective_pairing.
Defined.


Lemma query_comments_stages_witness :
  let s := State_new "2019-05-01" in
  let X := run_task ex_config ex_repo_config_labels ex_remote
             (QueryWGIssueCommentsTask 42 "Encoding" ex_wg_labels "2019-05-01T00:00:00Z")
             (mkWorld s []) in
  w_calls (fst X) = [] ++ [CIssueComments "w3c" "csswg-drafts" 42] /\
  match r_issue_comments ex_remote "w3c" "csswg-drafts" 42 with
  | Err e => snd X = Err e /\ w_state (fst X) = s
  | Ok comments =>
      snd X = Ok tt /\
      w_state (fst X) = set_posted_tasks (posted_tasks s ++
        map (fun cm => ProcessWGCommentTask 42 "Encoding" ex_wg_labels (comment_url cm) (body_text cm))
            (List.filter (fun cm => String.leb "2019-05-01T00:00:00Z" (created_at cm)) comments)) s
  end.
Proof.
  intros s X. apply (query_comments_stages ex_config ex_repo_config_labels ex_remote 42 "Encoding"
    ex_wg_labels "2019-05-01T00:00:00Z" s [] (fst X) (snd X)).
  apply surjective_pairing.
Defined.

Lemma query_wg_issues_stages_witness :
  let s := State_new "2019-05-01" in
  let X := run_task ex_config ex_repo_config_labels ex_remote
             (QueryWGIssuesTask "2019-05-01T00:00:00Z") (mkWorld s []) in
  w_calls (fst X) = [] ++ [CUpdatedIssues "w3c" "csswg-drafts" "2019-05-01T00:00:00Z"] /\
  match r_updated_issues ex_remote "w3c" "csswg-drafts" "2019-05-01T00:00:00Z" with
  | Err e => snd X = Err e /\ w_state (fst X) = s
  | Ok issues =>
      snd X = Ok tt /\
      handled_wg_comments (w_state (fst X)) = handled_wg_comments s /\
      posted_tasks (w_state (fst X)) = posted_tasks s ++
        map (fun i => QueryWGIssueCommentsTask (issue_number i) (issue_title i) (issue_labels i)
                        "2019-05-01T00:00:00Z") issues
  end.
Proof.
  intros s X. apply (query_wg_issues_stages ex_config ex_repo_config_labels ex_remote
    "2019-05-01T00:00:00Z" s [] (fst X) (snd X)).
  apply surjective_pairing.
Defined.

Lemma decisions_poll_ledger_witness :
  let X := run_task ex_config ex_repo_config_widget ex_remote
             (QueryDecisionsIssuesTask "2019-01-01T00:00:00Z") (mkWorld ex_state_handled []) in
  X = (fst X, Ok tt) /\
  forall x, x ∈ handled_decisions_issues (w_state (fst X)) <->
    x ∈ handled_decisions_issues ex_state_handled \/
    exists i, i ∈ decisions_batch ex_config ex_remote "2019-01-01T00:00:00Z" /\
              has_bug_label (issue_labels i) = true /\ x = issue_number i.
Proof.
  intros X. assert (H : X = (fst X, Ok tt)) by (vm_compute; reflexivity).
  split; [exact H|].
  exact (decisions_poll_ledger ex_config ex_repo_config_widget ex_remote "2019-01-01T00:00:00Z"
    ex_state_handled [] (fst X) H).
Defined.

Lemma iterate_finished_noop_witness :
  is_finished (State_new "2019-05-01") = true /\
  iterate ex_config ex_repo_config_labels ex_remote (mkWorld (State_new "2019-05-01") [])
  = (mkWorld (State_new "2019-05-01") [], Ok tt).
Proof.
  split; [reflexivity|].
  apply (iterate_finished_noop ex_config ex_repo_config_labels ex_remote (State_new "2019-05-01") []).
  reflexivity.
Defined.

Lemma iterate_success_pops_witness :
  let s := check_for_updates (State_new "2019-05-01") in
  let X := iterate ex_config ex_repo_config_labels ex_remote (mkWorld s []) in
  X = (fst X, Ok tt) /\ tasks (w_state (fst X)) = tl (posted_tasks s ++ tasks s).
Proof.
  intros s X. assert (H : X = (fst X, Ok tt)) by (vm_compute; reflexivity).
  split; [exact H|].
  exact (iterate_success_pops ex_config ex_repo_config_labels ex_remote s [] (fst X) H).
Defined.

Lemma drive_ok_finished_witness :
  let D := drive ex_config (ex_env true ex_remote) 100 ex_repo_config_labels
             (check_for_updates (State_new "2019-05-01")) in
  D = (fst D, Some (Ok tt)) /\
  exists ev0 s', fst D = ev0 ++ [EvSaveState s'] /\ is_finished s' = true /\
                 env_save (ex_env true ex_remote) s' = Ok tt.
Proof.
  intros D. assert (H : D = (fst D, Some (Ok tt))) by (vm_compute; reflexivity).
  split; [exact H|].
  exact (drive_ok_finished ex_config (ex_env true ex_remote) 100 ex_repo_config_labels
    (check_for_updates (State_new "2019-05-01")) (fst D) H).
Defined.

Lemma tracker_run_setup_error_witness :
  env_lock_open ex_env_corrupt = Ok tt /\ env_lock_free ex_env_corrupt = true /\
  exists ev, tracker_run ex_config ex_env_corrupt 100
             = (ev, Some (Err (format_err "could not find version number in state file"))) /\
    (forall c, EvRemote c ∉ ev) /\ (forall s, EvSaveState s ∉ ev).
Proof.
  split; [reflexivity|]. split; [reflexivity|].
  apply (tracker_run_setup_error ex_config ex_env_corrupt 100
    (format_err "could not find version number in state file")); [reflexivity|reflexivity|].
  right. exists ex_repo_config_labels. split; [reflexivity|]. split; reflexivity.
Defined.

Lemma config_urls_well_formed_witness :
  let toml := "wg_repo_owner = ..."%string in
  config_from_toml (fun _ => true) (fun _ => Ok ex_config) toml = Ok ex_config /\
  (fun (_ : string) => Ok ex_config : result Config) toml = Ok ex_config /\
  split_char "/" (wg_repo_url ex_config) =
    ["https:"; ""; "github.com"; wg_repo_owner ex_config; wg_repo_name ex_config] /\
  split_char "/" (decisions_repo_url ex_config) =
    ["https:"; ""; "github.com"; decisions_repo_owner ex_config; decisions_repo_name ex_config] /\
  wg_repo_owner ex_config <> EmptyString /\ wg_repo_name ex_config <> EmptyString /\
  decisions_repo_owner ex_config <> EmptyString /\ decisions_repo_name ex_config <> EmptyString.
Proof.
  intros toml.
  assert (H : config_from_toml (fun _ => true) (fun _ => Ok ex_config) toml = Ok ex_config)
    by (vm_compute; reflexivity).
  split; [exact H|].
  exact (config_urls_well_formed (fun _ => true) (fun _ => Ok ex_config) toml ex_config H).
Defined.


Lemma from_path_no_newline_witness :
  ~ In "010"%char (String.list_ascii_of_string "1") /\
  from_path_contents codec_parse "1"
  = Err (format_err "could not find version number in state file").
Proof.
  assert (H : ~ In "010"%char (String.list_ascii_of_string "1")) by not_in.
  split; [exact H|]. exact (from_path_no_newline codec_parse "1" H).
Defined.
